(** * Elevate Edge voice agent: call state, intake handlers and reconciliation

    A shallow embedding of [pipecat-agent/bot.py]: the field schema registry,
    the prompt builder, the call-state accumulator, the four function-call
    handlers, the post-call reconciliation ([extract_from_context],
    [post_call_extraction], [generate_summary]) and the persistence
    dispatcher ([save_call_data]), followed by the properties proved of them.

    Conventions of the embedding.
    - A Python [str] is a [string] that holds the UTF-8 encoding of the
      text, one character of the [string] for each byte; a value typed
      [str | None] is an [option string], and a dictionary
      [dict[str, str]] is a [gmap string string].
    - Python truthiness is written out: [None], the empty string and the
      empty dictionary are falsy.
    - An [async def] handler that ends in [await params.result_callback(s)]
      returns [s] next to the new call state.
    - Calls of [logger] do not change any state and are left out. *)

From Stdlib Require Import Ascii DecimalString.
From stdpp Require Import base option list strings gmap fin_maps.

(** ** Python string operations used by the source *)

Module PyStr.

(** The newline character, [chr(10)]. *)
Definition nl_char : ascii := "010"%char.
Definition nl : string := String nl_char "".

(** The double quote character. *)
Definition dq : string := String (ascii_of_nat 34) "".

(** Whitespace as [str.strip()] sees it: the code points for which
    [str.isspace] holds, which are U+0009..U+000D, U+001C..U+0020, U+0085,
    U+00A0, U+1680, U+2000..U+200A, U+2028, U+2029, U+202F, U+205F and
    U+3000. A string holds the UTF-8 encoding of the text, so these are
    sequences of one, two or three bytes: [space1] recognises the ten of
    one byte, [space2] the two that start with byte 194 (U+0085, U+00A0)
    and [space3] those of three bytes. *)
Definition space1 (a : ascii) : bool :=
  let n := nat_of_ascii a in
  ((9 <=? n) && (n <=? 13) || (28 <=? n) && (n <=? 32))%nat.

Definition space2 (a b : ascii) : bool :=
  let n := nat_of_ascii b in
  ((nat_of_ascii a =? 194) && ((n =? 133) || (n =? 160)))%nat.

Definition space3 (a b c : ascii) : bool :=
  let l := nat_of_ascii a in
  let m := nat_of_ascii b in
  let n := nat_of_ascii c in
  ((l =? 225) && (m =? 154) && (n =? 128)
   || (l =? 226) && (m =? 128)
      && ((128 <=? n) && (n <=? 138) || (n =? 168) || (n =? 169) || (n =? 175))
   || (l =? 226) && (m =? 129) && (n =? 159)
   || (l =? 227) && (m =? 128) && (n =? 128))%nat.

(** The encoding of one whitespace code point. *)
Definition is_space (t : string) : bool :=
  match t with
  | String a "" => space1 a
  | String a (String b "") => space2 a b
  | String a (String b (String c "")) => space3 a b c
  | _ => false
  end.

(** [s.lstrip()]: whitespace code points are removed from the front for as
    long as there is one. *)
Fixpoint lstrip (s : string) : string :=
  match s with
  | "" => ""
  | String a s1 =>
      if space1 a then lstrip s1
      else
        match s1 with
        | "" => s
        | String b s2 =>
            if space2 a b then lstrip s2
            else
              match s2 with
              | "" => s
              | String c s3 => if space3 a b c then lstrip s3 else s
              end
        end
  end.

(** [s.rstrip()]: from the back; a code point goes when it is whitespace
    and nothing is kept of what follows it. *)
Fixpoint rstrip (s : string) : string :=
  match s with
  | "" => ""
  | String a s' =>
      let r := rstrip s' in
      if is_space (String a r) then "" else String a r
  end.

(** [s.strip()] *)
Definition strip (s : string) : string := lstrip (rstrip s).

(** A string of whitespace only. *)
Fixpoint all_space (s : string) : bool :=
  match s with
  | "" => true
  | String a s1 =>
      if space1 a then all_space s1
      else
        match s1 with
        | "" => false
        | String b s2 =>
            if space2 a b then all_space s2
            else
              match s2 with
              | "" => false
              | String c s3 => if space3 a b c then all_space s3 else false
              end
        end
  end.

(** [s.startswith(p)] *)
Fixpoint startswith (p s : string) : bool :=
  match p, s with
  | "", _ => true
  | String a p', String b s' => bool_decide (a = b) && startswith p' s'
  | String _ _, "" => false
  end.

(** [s.endswith(p)] *)
Fixpoint endswith (p s : string) : bool :=
  bool_decide (s = p) ||
  match s with
  | "" => false
  | String _ s' => endswith p s'
  end.

(** [c in s] for a one-character [c]. *)
Fixpoint contains_char (c : ascii) (s : string) : bool :=
  match s with
  | "" => false
  | String a s' => bool_decide (a = c) || contains_char c s'
  end.

(** [p in s] *)
Fixpoint contains_str (p s : string) : bool :=
  startswith p s ||
  match s with
  | "" => false
  | String _ s' => contains_str p s'
  end.

(** [s.split(c, 1)[1]], for [s] that contains [c]: what follows the first
    occurrence of [c]. *)
Fixpoint after_first (c : ascii) (s : string) : string :=
  match s with
  | "" => ""
  | String a s' => if bool_decide (a = c) then s' else after_first c s'
  end.

(** [s[n:]] *)
Fixpoint drop_front (n : nat) (s : string) : string :=
  match n, s with
  | 0, _ => s
  | S _, "" => ""
  | S n', String _ s' => drop_front n' s'
  end.

(** [s[:k]] for a non-negative [k]. *)
Fixpoint take_front (k : nat) (s : string) : string :=
  match k, s with
  | 0, _ => ""
  | S _, "" => ""
  | S k', String a s' => String a (take_front k' s')
  end.

(** [s[:-n]] for a positive [n]. *)
Definition drop_back (n : nat) (s : string) : string :=
  take_front (String.length s - n) s.

(** [sep.join(l)] *)
Fixpoint join (sep : string) (l : list string) : string :=
  match l with
  | [] => ""
  | [x] => x
  | x :: l' => x +:+ sep +:+ join sep l'
  end.

(** [str(n)] for a non-negative integer. *)
Definition str_of_nat (n : nat) : string :=
  NilZero.string_of_uint (Nat.to_uint n).

(** Truthiness of a [str | None]. *)
Definition truthy (o : option string) : bool :=
  match o with
  | Some s => negb (bool_decide (s = ""))
  | None => false
  end.

(** Truthiness of a [str]. *)
Definition nonempty (s : string) : bool := negb (bool_decide (s = "")).

End PyStr.
Import PyStr.

(** ** HVAC intake field definitions *)

Record Field := mkField {
  key : string;
  label : string;
  required : bool
}.

Definition DESIGN_FIELDS : list Field := [
  mkField "buildingType" "Building Type" true;
  mkField "buildingSize" "Building Size (sq ft)" true;
  mkField "location" "Location" true;
  mkField "projectGoals" "Project Goals" true;
  mkField "timeline" "Timeline" true;
  mkField "budget" "Budget Range" false;
  mkField "existingSystem" "Existing System" false;
  mkField "specialRequirements" "Special Requirements" false
].

Definition SERVICE_FIELDS : list Field := [
  mkField "systemType" "System Type" true;
  mkField "systemAge" "System Age" true;
  mkField "symptoms" "Symptoms/Issue" true;
  mkField "urgency" "Urgency Level" true;
  mkField "location" "Location" true;
  mkField "siteConstraints" "Site Constraints" false;
  mkField "makeModel" "Make and Model" false
].

Definition QUOTE_FIELDS : list Field := [
  mkField "projectScope" "Project Scope" true;
  mkField "buildingType" "Building Type" true;
  mkField "buildingSize" "Building Size (sq ft)" true;
  mkField "location" "Location" true;
  mkField "existingSystem" "Existing System" false;
  mkField "timeline" "Timeline" false;
  mkField "budget" "Budget Range" false
].

Definition CALL_TYPE_FIELDS : gmap string (list Field) :=
  <["design" := DESIGN_FIELDS]>
  (<["service" := SERVICE_FIELDS]>
  (<["quote" := QUOTE_FIELDS]> ∅)).

Definition CALL_TYPE_LABELS : gmap string string :=
  <["design" := "an HVAC design consultation"]>
  (<["service" := "your HVAC service request"]>
  (<["quote" := "your HVAC quote request"]>
  (<["general" := "your HVAC inquiry"]> ∅))).

(** [CALL_TYPE_FIELDS.get(call_type, [])] for a [call_type] that may be
    [None]. *)
Definition fields_of (call_type : option string) : list Field :=
  match call_type with
  | Some ct => default [] (CALL_TYPE_FIELDS !! ct)
  | None => []
  end.

(** ** Prompt builder *)

(** The [fields_section] of [build_system_prompt] for a call type that has a
    registry entry. *)
Definition fields_section_known (call_type : string) (fields : list Field) : string :=
  let required_fields := filter (λ f, required f = true) fields in
  let optional := filter (λ f, required f = false) fields in
  let line (f : Field) := "- " +:+ key f +:+ ": " +:+ label f in
  join nl [
    "";
    "You are conducting a " +:+ call_type +:+ " intake call.";
    "";
    "REQUIRED fields to collect (MUST get all of these):";
    join nl (line <$> required_fields);
    "";
    "OPTIONAL fields to ask about:";
    join nl (line <$> optional);
    "";
    "When you believe ALL required fields have been collected, AND you have asked about optional fields:";
    "1. Read back a brief summary of what was collected";
    "2. Ask the caller to confirm everything is correct";
    "3. Ask " +:+ dq +:+ "Is there anything else I can help you with?" +:+ dq;
    "4. Only after they confirm should you call the complete_intake function";
    ""
  ].

(** The [fields_section] for a call that is not classified yet. *)
Definition fields_section_unknown : string :=
  join nl [
    "";
    "You have not yet determined the call type. Your first task is to find out what the caller needs.";
    "Listen to what they say and classify their intent:";
    "- " +:+ dq +:+ "design" +:+ dq +:+ " — New HVAC system design, heat pump installation, building retrofit, new construction HVAC";
    "- " +:+ dq +:+ "service" +:+ dq +:+ " — Repair, maintenance, troubleshooting an existing HVAC system";
    "- " +:+ dq +:+ "quote" +:+ dq +:+ " — Requesting a price estimate or quote";
    "- " +:+ dq +:+ "emergency" +:+ dq +:+ " — Gas leak, carbon monoxide, no heat in freezing conditions, fire/smoke from equipment";
    "- " +:+ dq +:+ "general" +:+ dq +:+ " — General questions";
    "";
    "Once you identify the call type, call the classify_call function with the appropriate type.";
    "If it's an emergency, immediately provide safety instructions, assure them a technician will call back within 15 minutes, and call complete_intake with emergency details.";
    ""
  ].

Definition greeting_of (direction : string) (call_type caller_name : option string) : string :=
  if decide (direction = "outbound") then
    let name_part :=
      match caller_name with
      | Some n => if nonempty n then ", " +:+ n else ""
      | None => ""
      end in
    match call_type with
    | Some ct =>
        if nonempty ct && negb (bool_decide (ct = "unknown")) then
          let label := default "your HVAC inquiry" (CALL_TYPE_LABELS !! ct) in
          "Start the conversation with: " +:+ dq +:+ "Hi" +:+ name_part +:+
          ", this is Elevate Edge calling about " +:+ label +:+
          ". I'm an AI assistant and I'd like to collect some details to get you connected with the right specialist. Do you have a few minutes to go through some questions?" +:+ dq
        else
          "Start the conversation with: " +:+ dq +:+ "Hi" +:+ name_part +:+
          ", this is Elevate Edge calling. I'm an AI assistant. I'd like to help you with your HVAC needs. Could you tell me what you're looking for — a design consultation, service, a quote, or something else?" +:+ dq
    | None =>
        "Start the conversation with: " +:+ dq +:+ "Hi" +:+ name_part +:+
        ", this is Elevate Edge calling. I'm an AI assistant. I'd like to help you with your HVAC needs. Could you tell me what you're looking for — a design consultation, service, a quote, or something else?" +:+ dq
    end
  else
    "Start the conversation with: " +:+ dq +:+
    "Thank you for calling Elevate Edge. I'm your AI assistant and I can help you with HVAC design consultations, service requests, quotes, and emergencies. How can I help you today?" +:+ dq.

Definition build_system_prompt
    (direction : string) (call_type caller_name : option string) : string :=
  let fields_section :=
    match call_type with
    | Some ct =>
        match (if nonempty ct then CALL_TYPE_FIELDS !! ct else None) with
        | Some fields => fields_section_known ct fields
        | None => fields_section_unknown
        end
    | None => fields_section_unknown
    end in
  let greeting := greeting_of direction call_type caller_name in
  join nl [
    "You are a friendly, professional AI phone agent for Elevate Edge, an HVAC consulting company.";
    "Your responses will be read aloud over a phone call, so:";
    "- Keep responses conversational, warm, and under 3 sentences";
    "- Do NOT use special characters, markdown, bullet points, or formatting";
    "- Spell out numbers and abbreviations naturally";
    "- Sound natural and human-like";
    "";
    greeting;
    "";
    fields_section;
    "";
    "IMPORTANT RULES:";
    "- NEVER rush through the call. Take your time and be thorough.";
    "- If the caller provides information for multiple fields at once, extract all of them.";
    "- Always ask about optional fields too — they help serve the caller better.";
    "- If the caller goes silent or seems confused, gently re-ask your last question.";
    "- Always extract the caller's name, email, and address if mentioned at any point — call update_caller_info.";
    "- Do NOT say goodbye or end the call until the intake is fully complete and confirmed.";
    "- If the caller asks a question you can't answer, let them know a specialist will follow up.";
    ""
  ].

(** ** Call state *)

(** One entry of [CallState.turns]. *)
Record Turn := mkTurn {
  role : string;
  content : string;
  turnNumber : nat;
  extractedData : option string
}.

(** One message of the LLM context: [msg.get("role", "")] and
    [msg.get("content", "")]; a missing or [None] content is the empty string,
    which is as falsy. *)
Record Message := mkMessage {
  msg_role : string;
  msg_content : string
}.

Record CallState := mkCallState {
  call_sid : string;
  caller_number : string;
  direction : string;
  call_type : option string;
  caller_name : option string;
  caller_email : option string;
  caller_address : option string;
  intake_data : gmap string string;
  summary : option string;
  turns : list Turn;
  is_complete : bool;
  turn_counter : nat;
  _saved : bool
}.

(** [CallState.__init__] *)
Definition CallState_init
    (call_sid caller_number direction : string)
    (call_type caller_name : option string) : CallState :=
  {| call_sid := call_sid; caller_number := caller_number;
     direction := direction; call_type := call_type;
     caller_name := caller_name; caller_email := None;
     caller_address := None; intake_data := ∅; summary := None;
     turns := []; is_complete := false; turn_counter := 0;
     _saved := false |}.

(** Attribute assignments [call_state.x = v]. *)
Definition set_call_type (v : option string) (st : CallState) : CallState :=
  mkCallState (call_sid st) (caller_number st) (direction st) v
    (caller_name st) (caller_email st) (caller_address st) (intake_data st)
    (summary st) (turns st) (is_complete st) (turn_counter st) (_saved st).
Definition set_caller_name (v : option string) (st : CallState) : CallState :=
  mkCallState (call_sid st) (caller_number st) (direction st) (call_type st)
    v (caller_email st) (caller_address st) (intake_data st)
    (summary st) (turns st) (is_complete st) (turn_counter st) (_saved st).
Definition set_caller_email (v : option string) (st : CallState) : CallState :=
  mkCallState (call_sid st) (caller_number st) (direction st) (call_type st)
    (caller_name st) v (caller_address st) (intake_data st)
    (summary st) (turns st) (is_complete st) (turn_counter st) (_saved st).
Definition set_caller_address (v : option string) (st : CallState) : CallState :=
  mkCallState (call_sid st) (caller_number st) (direction st) (call_type st)
    (caller_name st) (caller_email st) v (intake_data st)
    (summary st) (turns st) (is_complete st) (turn_counter st) (_saved st).
Definition set_intake_data (v : gmap string string) (st : CallState) : CallState :=
  mkCallState (call_sid st) (caller_number st) (direction st) (call_type st)
    (caller_name st) (caller_email st) (caller_address st) v
    (summary st) (turns st) (is_complete st) (turn_counter st) (_saved st).
Definition set_summary (v : option string) (st : CallState) : CallState :=
  mkCallState (call_sid st) (caller_number st) (direction st) (call_type st)
    (caller_name st) (caller_email st) (caller_address st) (intake_data st)
    v (turns st) (is_complete st) (turn_counter st) (_saved st).
Definition set_turns (v : list Turn) (st : CallState) : CallState :=
  mkCallState (call_sid st) (caller_number st) (direction st) (call_type st)
    (caller_name st) (caller_email st) (caller_address st) (intake_data st)
    (summary st) v (is_complete st) (turn_counter st) (_saved st).
Definition set_is_complete (v : bool) (st : CallState) : CallState :=
  mkCallState (call_sid st) (caller_number st) (direction st) (call_type st)
    (caller_name st) (caller_email st) (caller_address st) (intake_data st)
    (summary st) (turns st) v (turn_counter st) (_saved st).
Definition set_turn_counter (v : nat) (st : CallState) : CallState :=
  mkCallState (call_sid st) (caller_number st) (direction st) (call_type st)
    (caller_name st) (caller_email st) (caller_address st) (intake_data st)
    (summary st) (turns st) (is_complete st) v (_saved st).
Definition set_saved (v : bool) (st : CallState) : CallState :=
  mkCallState (call_sid st) (caller_number st) (direction st) (call_type st)
    (caller_name st) (caller_email st) (caller_address st) (intake_data st)
    (summary st) (turns st) (is_complete st) (turn_counter st) v.

(** ** Function-call handlers *)

(** The loop of [handle_classify_call] that initialises the intake data:
    [if field["key"] not in call_state.intake_data:
       call_state.intake_data[field["key"]] = ""]. *)
Definition seed_field (data : gmap string string) (field : Field) : gmap string string :=
  match data !! key field with
  | Some _ => data
  | None => <[key field := ""]> data
  end.

(** [handle_classify_call]. [args_call_type] is [args["call_type"]] when the
    key is present; [messages] is [params.context.messages]. The result is
    the new call state, the new context messages and the string passed to
    [params.result_callback], or [None] when the assignment to
    [messages[0]] raised [IndexError] on an empty context, in which case the
    callback is never reached. *)
Definition handle_classify_call
    (st : CallState) (messages : list Message) (args_call_type : option string)
    : CallState * list Message * option string :=
  let call_type := default "general" args_call_type in
  let st := set_call_type (Some call_type) st in
  if decide (call_type = "emergency") then
    (st, messages,
     Some "Call classified as emergency. Provide immediate safety instructions and assure the caller a technician will call back within 15 minutes.")
  else
    let fields := default [] (CALL_TYPE_FIELDS !! call_type) in
    let st := set_intake_data (foldl seed_field (intake_data st) fields) st in
    let new_prompt :=
      build_system_prompt (direction st) (Some call_type) (caller_name st) in
    match messages with
    | [] => (st, messages, None)
    | _ :: rest =>
        (st, mkMessage "system" new_prompt :: rest,
         Some ("Call classified as " +:+ call_type +:+
               ". Now begin collecting the intake information by asking about the first required field."))
    end.

(** The loop of [handle_update_intake] over [fields.items()]:
    [if value: call_state.intake_data[key] = value]. *)
Definition store_item (data : gmap string string) (item : string * string)
    : gmap string string :=
  if nonempty item.2 then <[item.1 := item.2]> data else data.

(** [call_state.intake_data.get(f["key"])] as a truth value. *)
Definition has_value (data : gmap string string) (f : Field) : bool :=
  truthy (data !! key f).

(** [handle_update_intake]. [args_fields] is [args["fields"]] when the key is
    present. *)
Definition handle_update_intake
    (st : CallState) (args_fields : option (gmap string string))
    : CallState * string :=
  let fields := default ∅ args_fields in
  let st := set_intake_data
              (foldl store_item (intake_data st) (map_to_list fields)) st in
  let all_fields := fields_of (call_type st) in
  let required_fields := filter (λ f, required f = true) all_fields in
  let collected_required :=
    filter (λ f, has_value (intake_data st) f = true) required_fields in
  let remaining :=
    filter (λ f, has_value (intake_data st) f = false) all_fields in
  let status :=
    "Updated " +:+ str_of_nat (size fields) +:+ " field(s). " +:+
    str_of_nat (length collected_required) +:+ "/" +:+
    str_of_nat (length required_fields) +:+ " required fields collected." in
  let status :=
    match remaining with
    | [] =>
        status +:+
        " All fields collected! Read back a summary and ask the caller to confirm."
    | _ :: _ =>
        let remaining_labels := join ", " (label <$> remaining) in
        status +:+ " Still needed: " +:+ remaining_labels +:+ "."
    end in
  (st, status).

(** [handle_update_caller]. Each argument is [args[...]] when the key is
    present. *)
Definition handle_update_caller
    (st : CallState) (name email address : option string)
    : CallState * string :=
  let st := if truthy name then set_caller_name name st else st in
  let st := if truthy email then set_caller_email email st else st in
  let st := if truthy address then set_caller_address address st else st in
  (st, "Caller information updated. Continue with the intake.").

(** [handle_complete_intake] *)
Definition handle_complete_intake
    (st : CallState) (args_summary : option string) : CallState * string :=
  let st := set_summary (Some (default "" args_summary)) st in
  let st := set_is_complete true st in
  (st, "Thank the caller warmly, let them know a specialist will follow up soon, and say goodbye.").

(** ** Values exchanged with the outside world *)

(** The value of one key of the JSON object that post-call extraction asks
    the provider for: the key is missing, is [null], or holds a string. *)
Inductive JEntry :=
  | Absent
  | Null
  | Str (s : string).

(** A dictionary returned by [json.loads] on the provider's answer, read at
    the keys the source reads. ["fields"], when present, is an object of
    strings, as the prompt demands; [ex_other_keys] tells whether the object
    has any further key. An answer whose ["fields"] is [null] or a value of
    another type has no [Extracted]: the source stores such a value in
    [intake_data] as it is, where a dictionary is expected afterwards, and
    what follows from that is not covered by this development. *)
Record Extracted := mkExtracted {
  ex_callType : JEntry;
  ex_fields : option (gmap string string);
  ex_callerName : JEntry;
  ex_callerEmail : JEntry;
  ex_callerAddress : JEntry;
  ex_summary : JEntry;
  ex_other_keys : bool
}.

(** What [json.loads] can return: [None] (for the JSON text [null]), a
    dictionary, or a value of another type (list, string, number, boolean),
    of which only the truth value matters before it is used as a
    dictionary. *)
Inductive PyValue :=
  | PyNone
  | PyDict (e : Extracted)
  | PyOther (truth : bool).

(** [d.get(k)] as a truth value. *)
Definition entry_truthy (e : JEntry) : bool :=
  match e with
  | Str s => nonempty s
  | _ => false
  end.

(** [d.get(k, dflt)] *)
Definition entry_get (e : JEntry) (dflt : option string) : option string :=
  match e with
  | Absent => dflt
  | Null => None
  | Str s => Some s
  end.

(** [d[k]] for a key that [entry_truthy] found. *)
Definition entry_value (e : JEntry) : option string :=
  match e with
  | Str s => Some s
  | _ => None
  end.

Definition entry_present (e : JEntry) : bool :=
  match e with
  | Absent => false
  | _ => true
  end.

(** Truthiness of a dictionary: it has at least one key. *)
Definition dict_truthy (e : Extracted) : bool :=
  entry_present (ex_callType e) || bool_decide (is_Some (ex_fields e)) ||
  entry_present (ex_callerName e) || entry_present (ex_callerEmail e) ||
  entry_present (ex_callerAddress e) || entry_present (ex_summary e) ||
  ex_other_keys e.

Definition value_truthy (v : PyValue) : bool :=
  match v with
  | PyNone => false
  | PyDict e => dict_truthy e
  | PyOther b => b
  end.

(** The payload of [CallState.to_payload]. *)
Record Payload := mkPayload {
  twilioCallSid : string;
  callerNumber : string;
  p_direction : string;
  callType : string;
  callerName : option string;
  callerEmail : option string;
  callerAddress : option string;
  intakeData : option string;
  p_summary : option string;
  p_turns : list Turn
}.

(** The answer of [client.chat.completions.create]: the request raises, or
    it returns a response whose [choices[0].message.content] is a string or
    [None]. *)
Inductive Completion :=
  | CompletionRaises
  | CompletionContent (c : option string).

(** The outcome of [session.post]: the request raises, or it returns a
    status and a body. *)
Inductive PostOutcome :=
  | PostRaises
  | PostResponse (status : nat) (body : string).

(** Exceptions the modelled code can raise. *)
Inductive PyExc :=
  | AttributeError
  | JSONDecodeError
  | APIError
  | ClientError.

(** Requests sent to the outside world, in the order they are sent. *)
Inductive Event :=
  | ChatRequest (model : string) (messages : list Message)
  | HttpPost (endpoint : string) (payload : Payload).

(** ** A monad for code that mutates the call state, talks to the outside
    world and may raise *)

Record World := mkWorld {
  w_state : CallState;
  w_trace : list Event
}.

Definition M (A : Type) : Type := World → (PyExc + A) * World.

#[global] Instance M_ret : MRet M := λ A x w, (inr x, w).

#[global] Instance M_bind : MBind M := λ A B f m w,
  match m w with
  | (inr x, w') => f x w'
  | (inl e, w') => (inl e, w')
  end.

Definition raise {A : Type} (e : PyExc) : M A := λ w, (inl e, w).

(** [try: body  except Exception: handler] *)
Definition try_except {A : Type} (body : M A) (handler : PyExc → M A) : M A :=
  λ w,
  match body w with
  | (inl e, w') => handler e w'
  | r => r
  end.

Definition get_state : M CallState := λ w, (inr (w_state w), w).

Definition modify_state (f : CallState → CallState) : M unit :=
  λ w, (inr (), mkWorld (f (w_state w)) (w_trace w)).

Definition emit (ev : Event) : M unit :=
  λ w, (inr (), mkWorld (w_state w) (w_trace w ++ [ev])).

(** [if c: body] *)
Definition when (c : bool) (body : M unit) : M unit :=
  if c then body else mret ().

(** Running a computation from a call state, with an empty trace. *)
Definition run {A : Type} (m : M A) (st : CallState) : (PyExc + A) * World :=
  m (mkWorld st []).

(** ** Reconciliation, extraction and persistence *)

(** One step of the turn-building loop of [extract_from_context]: the
    accumulator is the local [turn_number] and [call_state.turns]. *)
Definition backfill_step (acc : nat * list Turn) (msg : Message) : nat * list Turn :=
  let role := msg_role msg in
  let content := msg_content msg in
  if negb (nonempty content) || bool_decide (role = "system") then acc
  else if decide (role = "user") then
    let turn_number := S acc.1 in
    (turn_number, acc.2 ++ [mkTurn "caller" content turn_number None])
  else if decide (role = "assistant") then
    let turn_number := S acc.1 in
    (turn_number, acc.2 ++ [mkTurn "agent" content turn_number None])
  else acc.

(** The transcript built from the turns, one line per turn. *)
Definition transcript_line (t : Turn) : string :=
  (if decide (role t = "agent") then "Agent" else "Caller") +:+ ": " +:+ content t.

Definition transcript_of (ts : list Turn) : string :=
  join nl (transcript_line <$> ts).

(** [not d or all(v == "" for v in d.values())] *)
Definition intake_blank (d : gmap string string) : bool :=
  bool_decide (d = ∅) ||
  forallb (λ kv, bool_decide (kv.2 = "")) (map_to_list d).

(** [call_state.call_type or "unknown"] *)
Definition call_type_or_unknown (ct : option string) : string :=
  match ct with
  | Some s => if nonempty s then s else "unknown"
  | None => "unknown"
  end.

(** The system message of [post_call_extraction]. *)
Definition extraction_prompt (call_type : string) : string :=
  let fields_hint :=
    match CALL_TYPE_FIELDS !! call_type with
    | Some fields =>
        "Expected fields for a " +:+ call_type +:+ " call: " +:+
        join ", " (key <$> fields)
    | None => ""
    end in
  join nl [
    "You are a data extraction assistant. Extract structured information from this HVAC intake call transcript.";
    "";
    fields_hint;
    "";
    "Respond with ONLY a JSON object:";
    "{";
    "  " +:+ dq +:+ "callType" +:+ dq +:+ ": " +:+ dq +:+ "design|service|quote|emergency|general" +:+ dq +:+ ",";
    "  " +:+ dq +:+ "fields" +:+ dq +:+ ": {" +:+ dq +:+ "fieldKey" +:+ dq +:+ ": " +:+ dq +:+ "extracted value" +:+ dq +:+ ", ...},";
    "  " +:+ dq +:+ "callerName" +:+ dq +:+ ": " +:+ dq +:+ "name or null" +:+ dq +:+ ",";
    "  " +:+ dq +:+ "callerEmail" +:+ dq +:+ ": " +:+ dq +:+ "email or null" +:+ dq +:+ ",";
    "  " +:+ dq +:+ "callerAddress" +:+ dq +:+ ": " +:+ dq +:+ "address or null" +:+ dq +:+ ",";
    "  " +:+ dq +:+ "summary" +:+ dq +:+ ": " +:+ dq +:+ "Brief 2-3 sentence summary of the call" +:+ dq;
    "}"
  ].

Definition extraction_messages (transcript call_type : string) : list Message :=
  [ mkMessage "system" (extraction_prompt call_type);
    mkMessage "user" transcript ].

Definition summary_messages (transcript : string) : list Message :=
  [ mkMessage "system"
      "Summarize this HVAC intake call transcript in 2-3 sentences. Focus on what was discussed, what information was collected, and any next steps.";
    mkMessage "user" transcript ].

(** The removal of Markdown code fences in [post_call_extraction], from
    [response...content.strip()] to the text handed to [json.loads]. *)
Definition strip_code_fences (content : string) : string :=
  let text := strip content in
  let text :=
    if startswith "```" text then
      if contains_char nl_char text then after_first nl_char text
      else drop_front 3 text
    else text in
  let text := if endswith "```" text then drop_back 3 text else text in
  strip text.

(** ** Call set-up: [bot] *)

(** The call data that [parse_telephony_websocket] returns, read at the keys
    [bot] reads. The body holds the custom parameters of the media stream,
    which are strings. *)
Record CallData := mkCallData {
  cd_call_id : option string;
  cd_stream_id : option string;
  cd_body : option (gmap string string)
}.

(** [a or b] for an [a] of type [str | None]. *)
Definition py_or (a b : option string) : option string :=
  if truthy a then a else b.

(** The call state [bot] builds before it hands over to [run_bot];
    [call_type], [caller_name] and [direction] are the keyword arguments of
    [bot]. *)
Definition bot_call_state
    (call_data : CallData) (call_type caller_name : option string)
    (direction : string) : CallState :=
  let call_sid := default "unknown" (cd_call_id call_data) in
  let body_data := default ∅ (cd_body call_data) in
  let ws_call_type := py_or (body_data !! "call_type") call_type in
  let ws_caller_name := py_or (body_data !! "caller_name") caller_name in
  let ws_direction :=
    match body_data !! "direction" with
    | Some d => if nonempty d then d else direction
    | None => direction
    end in
  let caller_number := default "unknown" (body_data !! "from_number") in
  CallState_init call_sid caller_number ws_direction
    (if truthy ws_call_type && negb (bool_decide (ws_call_type = Some "unknown"))
     then ws_call_type else None)
    ws_caller_name.

(** ** The HTTP endpoints of [server.py] *)

(** [s.replace(old, new)] for a non-empty [old]: the occurrences of [old]
    are replaced from left to right, without overlap. [skip] counts the
    characters of an occurrence that are still to be passed over. *)
Fixpoint replace_go (old new : string) (skip : nat) (s : string) : string :=
  match s with
  | "" => ""
  | String c s' =>
      match skip with
      | S k => replace_go old new k s'
      | 0 =>
          if startswith old s
          then new +:+ replace_go old new (String.length old - 1) s'
          else String c (replace_go old new 0 s')
      end
  end.

Definition replace (old new s : string) : string := replace_go old new 0 s.

(** [get_ws_url]; [inl] carries the message of the [ValueError]. *)
Definition get_ws_url (LOCAL_SERVER_URL : option string) : string + string :=
  let local_server_url := default "" LOCAL_SERVER_URL in
  if negb (nonempty local_server_url) then inl "LOCAL_SERVER_URL not configured"
  else
    let ws_url :=
      replace "http://" "ws://" (replace "https://" "wss://" local_server_url) in
    inr (ws_url +:+ "/ws").

(** The verbs of a TwiML voice response, as the source builds them. *)
Inductive Verb :=
  | Say (text voice : string)
  | Hangup
  | ConnectStream (url : string) (parameters : list (string * string))
  | Pause (length : nat).

(** [twiml_incoming]; [form_data] is the form of the webhook request. *)
Definition twiml_incoming
    (LOCAL_SERVER_URL : option string) (form_data : gmap string string)
    : list Verb :=
  match get_ws_url LOCAL_SERVER_URL with
  | inl _ =>
      [ Say "We're sorry, the voice agent is not available right now. Please try again later."
          "Polly.Joanna";
        Hangup ]
  | inr ws_url =>
      let caller_number := default "unknown" (form_data !! "From") in
      let called_number := default "unknown" (form_data !! "To") in
      [ ConnectStream ws_url
          [ ("direction", "inbound");
            ("from_number", caller_number);
            ("to_number", called_number) ];
        Pause 300 ]
  end.

(** The JSON body of a dial-out request, at the keys the source reads. *)
Record DialOutData := mkDialOutData {
  d_phoneNumber : JEntry;
  d_callType : JEntry;
  d_callerName : JEntry
}.

(** The environment variables [handle_dial_out] reads. *)
Record DialOutEnv := mkDialOutEnv {
  TWILIO_ACCOUNT_SID : option string;
  TWILIO_AUTH_TOKEN : option string;
  TWILIO_PHONE_NUMBER : option string;
  LOCAL_SERVER_URL : option string
}.

(** A call of [TwilioClient(account_sid, auth_token).calls.create]. *)
Record CallRequest := mkCallRequest {
  cr_account_sid : string;
  cr_auth_token : string;
  cr_to : string;
  cr_from : string;
  cr_twiml : list Verb
}.

(** The [JSONResponse] of [handle_dial_out]: an error with its status code,
    or the success body. *)
Inductive DialOutResponse :=
  | DialOutError (status_code : nat) (error : string)
  | DialOutSuccess (callSid status : string).

(** [handle_dial_out]. [calls_create] is the carrier: it answers a call
    request with the message of the exception it raises, or with the sid and
    the status of the call. The result is the response and the call requests
    that were made. *)
Definition handle_dial_out
    (calls_create : CallRequest → string + string * string)
    (env : DialOutEnv) (data : DialOutData)
    : DialOutResponse * list CallRequest :=
  let phone_number := entry_get (d_phoneNumber data) None in
  let call_type := entry_get (d_callType data) (Some "unknown") in
  let caller_name := entry_get (d_callerName data) None in
  if negb (truthy phone_number) then
    (DialOutError 400 "phoneNumber is required", [])
  else
    let account_sid := TWILIO_ACCOUNT_SID env in
    let auth_token := TWILIO_AUTH_TOKEN env in
    let twilio_number := TWILIO_PHONE_NUMBER env in
    if negb (truthy account_sid) || negb (truthy auth_token)
       || negb (truthy twilio_number) then
      (DialOutError 500 "Twilio credentials not configured", [])
    else
      match get_ws_url (LOCAL_SERVER_URL env) with
      | inl e => (DialOutError 500 e, [])
      | inr ws_url =>
          let twiml :=
            [ ConnectStream ws_url
                [ ("call_type", default "unknown" (py_or call_type (Some "unknown")));
                  ("caller_name", default "" (py_or caller_name (Some "")));
                  ("direction", "outbound");
                  ("from_number", default "" twilio_number);
                  ("to_number", default "" phone_number) ];
              Pause 300 ] in
          let request :=
            mkCallRequest (default "" account_sid) (default "" auth_token)
              (default "" phone_number) (default "" twilio_number) twiml in
          match calls_create request with
          | inl e => (DialOutError 500 e, [request])
          | inr (sid, status) => (DialOutSuccess sid status, [request])
          end
      end.

(** The parameters of the media stream of a voice response. *)
Definition stream_parameters (doc : list Verb) : list (string * string) :=
  match doc with
  | ConnectStream _ parameters :: _ => parameters
  | _ => []
  end.

(** ** A small concrete outside world, for running the model *)

Module Sample.

(** The JSON text of the sample provider answer. *)
Definition json_text : string :=
  "{" +:+ dq +:+ "fields" +:+ dq +:+ ": {" +:+ dq +:+ "location" +:+ dq +:+
  ": " +:+ dq +:+ "Surrey" +:+ dq +:+ "}, " +:+ dq +:+ "callerName" +:+ dq +:+
  ": " +:+ dq +:+ "Bob" +:+ dq +:+ "}".

(** What [json.loads] makes of [json_text]. *)
Definition extracted : Extracted :=
  {| ex_callType := Absent;
     ex_fields := Some {["location" := "Surrey"]};
     ex_callerName := Str "Bob";
     ex_callerEmail := Absent;
     ex_callerAddress := Absent;
     ex_summary := Absent;
     ex_other_keys := false |}.

(** A parser that knows [json_text] only. *)
Definition json_loads (s : string) : option PyValue :=
  if decide (s = json_text) then Some (PyDict extracted) else None.

Definition json_dumps (d : gmap string string) : string := "{...}".

(** A provider that answers every request with [json_text] in a Markdown
    code fence. *)
Definition chat_completions_create (model : string) (messages : list Message)
    : Completion :=
  CompletionContent (Some ("```json" +:+ nl +:+ json_text +:+ nl +:+ "```")).

(** A provider whose every request fails. *)
Definition chat_unavailable (model : string) (messages : list Message)
    : Completion := CompletionRaises.

(** A backend that refuses every delivery. *)
Definition session_post (endpoint : string) (payload : Payload) : PostOutcome :=
  PostRaises.

Definition NEXTJS_API_URL : option string := None.

(** A context with one caller utterance and one agent utterance. *)
Definition messages : list Message :=
  [ mkMessage "system" "prompt";
    mkMessage "assistant" "Thank you for calling.";
    mkMessage "user" "This is Alice, I need a quote.";
    mkMessage "tool" "ok";
    mkMessage "assistant" "" ].

(** A fresh inbound call whose caller name is already known. *)
Definition call : CallState :=
  CallState_init "CA1" "+16045550100" "inbound" None (Some "Alice").

(** A design call on which the five required fields were collected. *)
Definition design_call : CallState :=
  (handle_update_intake
     (handle_classify_call call messages (Some "design")).1.1
     (Some (list_to_map
              [ ("buildingType", "office"); ("buildingSize", "5000");
                ("location", "Surrey"); ("projectGoals", "retrofit");
                ("timeline", "spring") ]))).1.

(** A provider that answers every request with a JSON list. *)
Definition chat_answers_list (model : string) (messages : list Message)
    : Completion :=
  CompletionContent (Some "[1]").

(** A parser that knows that list only. *)
Definition json_loads_list (s : string) : option PyValue :=
  if decide (s = "[1]") then Some (PyOther true) else None.

(** A configured server. *)
Definition dial_env : DialOutEnv :=
  mkDialOutEnv (Some "AC1") (Some "token") (Some "+16045550199")
    (Some "https://agent.example.com").

(** A request to dial out for a design call, without a caller name. *)
Definition dial_data : DialOutData :=
  mkDialOutData (Str "+16045550100") (Str "design") Absent.

(** A carrier that queues every call. *)
Definition calls_create (request : CallRequest) : string + string * string :=
  inr ("CA2", "queued").

(** The call request that [dial_data] leads to on [dial_env]. *)
Definition dial_request : CallRequest :=
  mkCallRequest "AC1" "token" "+16045550100" "+16045550199"
    [ ConnectStream "wss://agent.example.com/ws"
        [ ("call_type", "design"); ("caller_name", "");
          ("direction", "outbound"); ("from_number", "+16045550199");
          ("to_number", "+16045550100") ];
      Pause 300 ].

(** The call data of the media stream that [dial_request] opens. *)
Definition dial_call_data : CallData :=
  mkCallData (Some "CA2") (Some "MZ1")
    (Some (list_to_map (stream_parameters (cr_twiml dial_request)))).

(** The no-break space U+00A0 and the em space U+2003, in UTF-8. *)
Definition nbsp : string :=
  String (ascii_of_nat 194) (String (ascii_of_nat 160) "").
Definition em_space : string :=
  String (ascii_of_nat 226)
    (String (ascii_of_nat 128) (String (ascii_of_nat 131) "")).

(** A provider that answers every request with [json_text] in a code
    fence, between a no-break space and an em space. *)
Definition chat_answers_padded (model : string) (messages : list Message)
    : Completion :=
  CompletionContent
    (Some (nbsp +:+ "```json" +:+ nl +:+ json_text +:+ nl +:+ "```" +:+ em_space)).

(** An answer with a call type and a null summary, and its parser. *)
Definition json_text_null_summary : string :=
  "{" +:+ dq +:+ "callType" +:+ dq +:+ ": " +:+ dq +:+ "emergency" +:+ dq +:+
  ", " +:+ dq +:+ "summary" +:+ dq +:+ ": null}".

Definition extracted_null_summary : Extracted :=
  {| ex_callType := Str "emergency";
     ex_fields := None;
     ex_callerName := Absent;
     ex_callerEmail := Absent;
     ex_callerAddress := Absent;
     ex_summary := Null;
     ex_other_keys := false |}.

Definition json_loads_null_summary (s : string) : option PyValue :=
  if decide (s = json_text_null_summary)
  then Some (PyDict extracted_null_summary) else None.

(** A provider that answers the extraction request with
    [json_text_null_summary] and fails on every other request. *)
Definition chat_answers_null_summary (model : string) (messages : list Message)
    : Completion :=
  match messages with
  | [system; user] =>
      if startswith "You are a data extraction assistant." (msg_content system)
      then CompletionContent (Some json_text_null_summary)
      else CompletionRaises
  | _ => CompletionRaises
  end.

(** An emergency call that [complete_intake] closed with a summary. *)
Definition emergency_call : CallState :=
  (handle_complete_intake
     (handle_classify_call call messages (Some "emergency")).1.1
     (Some "Gas leak, caller evacuated.")).1.

End Sample.

Section External.

(** [json.dumps] on a dictionary of strings. *)
Variable json_dumps : gmap string string → string.

(** [json.loads]; [None] when it raises [JSONDecodeError]. *)
Variable json_loads : string → option PyValue.

(** The completion service, by model and messages ([temperature=0]). *)
Variable chat_completions_create : string → list Message → Completion.

(** The HTTP client, by endpoint and JSON payload. *)
Variable session_post : string → Payload → PostOutcome.

(** [os.getenv("NEXTJS_API_URL")] *)
Variable NEXTJS_API_URL : option string.

(** [CallState.add_turn] *)
Definition add_turn
    (role content : string) (extracted_data : option (gmap string string))
    (st : CallState) : CallState :=
  let st := set_turn_counter (turn_counter st + 1) st in
  set_turns
    (turns st ++
     [mkTurn role content (turn_counter st)
        match extracted_data with
        | Some d => if bool_decide (d = ∅) then None else Some (json_dumps d)
        | None => None
        end]) st.

(** [CallState.to_payload] *)
Definition to_payload (st : CallState) : Payload :=
  {| twilioCallSid := call_sid st;
     callerNumber := caller_number st;
     p_direction := direction st;
     callType := call_type_or_unknown (call_type st);
     callerName := caller_name st;
     callerEmail := caller_email st;
     callerAddress := caller_address st;
     intakeData :=
       if bool_decide (intake_data st = ∅) then None
       else Some (json_dumps (intake_data st));
     p_summary := summary st;
     p_turns := turns st |}.

(** [await client.chat.completions.create(...)] followed by the read of
    [response.choices[0].message.content] for [.strip()]: the request is
    traced, a failed request raises, and [.strip()] on a [None] content
    raises [AttributeError]. *)
Definition request_content (model : string) (messages : list Message)
    : M string :=
  emit (ChatRequest model messages);;
  match chat_completions_create model messages with
  | CompletionRaises => raise APIError
  | CompletionContent None => raise AttributeError
  | CompletionContent (Some c) => mret c
  end.

(** [post_call_extraction] *)
Definition post_call_extraction (transcript call_type : string) : M PyValue :=
  try_except
    (content ← request_content "gpt-4o-mini"
                 (extraction_messages transcript call_type);
     let text := strip_code_fences content in
     match json_loads text with
     | Some v => mret v
     | None => raise JSONDecodeError
     end)
    (λ _, mret PyNone).

(** [generate_summary] *)
Definition generate_summary (transcript : string) : M (option string) :=
  try_except
    (content ← request_content "gpt-4o-mini" (summary_messages transcript);
     mret (Some (strip content)))
    (λ _, mret None).

(** The assignments [extract_from_context] makes from a truthy dictionary
    [extracted]. *)
Definition merge_extracted (e : Extracted) (st : CallState) : CallState :=
  let st := set_intake_data (default ∅ (ex_fields e)) st in
  let st := set_summary (entry_get (ex_summary e) (summary st)) st in
  let st :=
    if entry_truthy (ex_callerName e)
    then set_caller_name (entry_value (ex_callerName e)) st else st in
  let st :=
    if entry_truthy (ex_callerEmail e)
    then set_caller_email (entry_value (ex_callerEmail e)) st else st in
  let st :=
    if entry_truthy (ex_callerAddress e)
    then set_caller_address (entry_value (ex_callerAddress e)) st else st in
  if negb (truthy (call_type st)) || bool_decide (call_type st = Some "unknown")
  then set_call_type (entry_get (ex_callType e) (call_type st)) st
  else st.

(** The use of a truthy [extracted] in [extract_from_context]: the first
    [extracted.get] raises [AttributeError] on a value that is not a
    dictionary. *)
Definition apply_extracted (extracted : PyValue) : M unit :=
  match extracted with
  | PyDict e => modify_state (merge_extracted e)
  | _ => raise AttributeError
  end.

(** Step 1 of [extract_from_context]: when no turn was recorded, build the
    turns from the context messages. *)
Definition build_turns (messages : list Message) (st : CallState) : CallState :=
  if bool_decide (turns st = []) then
    set_turns (foldl backfill_step (0, turns st) messages).2 st
  else st.

(** Step 2 of [extract_from_context]: post-call extraction when the intake
    data was not captured during the call. *)
Definition backfill_intake : M unit :=
  st ← get_state;
  when (intake_blank (intake_data st))
    (let transcript := transcript_of (turns st) in
     when (nonempty (strip transcript))
       (extracted ← post_call_extraction transcript
                      (call_type_or_unknown (call_type st));
        when (value_truthy extracted) (apply_extracted extracted))).

(** Step 3 of [extract_from_context]: a generated summary when there is
    none. *)
Definition backfill_summary : M unit :=
  st ← get_state;
  when (negb (truthy (summary st)) && negb (bool_decide (turns st = [])))
    (s ← generate_summary (transcript_of (turns st));
     modify_state (set_summary s)).

(** [extract_from_context]; [messages] is [context.messages]. *)
Definition extract_from_context (messages : list Message) : M unit :=
  try_except
    (modify_state (build_turns messages);;
     backfill_intake;;
     backfill_summary)
    (λ _, mret ()).

(** [save_call_data] *)
Definition save_call_data : M unit :=
  st ← get_state;
  if _saved st then mret ()
  else if bool_decide (turns st = []) then mret ()
  else
    modify_state (set_saved true);;
    let api_url := default "http://localhost:3000" NEXTJS_API_URL in
    let endpoint := api_url +:+ "/api/call-complete" in
    st ← get_state;
    let payload := to_payload st in
    try_except
      (emit (HttpPost endpoint payload);;
       match session_post endpoint payload with
       | PostRaises => raise ClientError
       | PostResponse _ _ => mret ()
       end)
      (λ _, mret ()).

(** *** Values read off the outside world *)

(** The request [post_call_extraction] sends. *)
Definition extraction_request (transcript call_type : string) : Event :=
  ChatRequest "gpt-4o-mini" (extraction_messages transcript call_type).

(** The request [generate_summary] sends. *)
Definition summary_request (transcript : string) : Event :=
  ChatRequest "gpt-4o-mini" (summary_messages transcript).

(** What the provider's answer to the extraction request parses to, when
    the request succeeds, the content is a string and [json.loads] accepts
    the text left after the code fences are stripped. *)
Definition parsed_answer (transcript call_type : string) : option PyValue :=
  match chat_completions_create "gpt-4o-mini"
          (extraction_messages transcript call_type) with
  | CompletionContent (Some c) => json_loads (strip_code_fences c)
  | _ => None
  end.


(** The state [extract_from_context] reaches before the summary step, from
    the state that [build_turns] left: the outcome of [backfill_intake]. *)
Definition reconcile_intake (st1 : CallState) : CallState :=
  let transcript := transcript_of (turns st1) in
  if intake_blank (intake_data st1) && nonempty (strip transcript) then
    match parsed_answer transcript (call_type_or_unknown (call_type st1)) with
    | Some (PyDict e) => if dict_truthy e then merge_extracted e st1 else st1
    | _ => st1
    end
  else st1.

(** *** Uses of a call state

    The operations the source defines on a call state, for statements
    about everything that can happen to one instance. [run_op] gives what
    an operation does to the call state and to the trace of requests. The
    reply of a handler is not part of it, and neither is the [IndexError]
    that [handle_classify_call] raises on an empty context: the handler
    raises it after it has set the call type and seeded the intake data,
    and the state keeps these changes. *)
Inductive Op :=
  | OpClassify (messages : list Message) (args_call_type : option string)
  | OpUpdateIntake (args_fields : option (gmap string string))
  | OpUpdateCaller (name email address : option string)
  | OpCompleteIntake (args_summary : option string)
  | OpAddTurn (role content : string) (extracted_data : option (gmap string string))
  | OpExtractFromContext (messages : list Message)
  | OpSaveCallData.

Definition run_op (op : Op) : M unit :=
  match op with
  | OpClassify messages ct =>
      modify_state (λ st, (handle_classify_call st messages ct).1.1)
  | OpUpdateIntake fields =>
      modify_state (λ st, (handle_update_intake st fields).1)
  | OpUpdateCaller name email address =>
      modify_state (λ st, (handle_update_caller st name email address).1)
  | OpCompleteIntake s =>
      modify_state (λ st, (handle_complete_intake st s).1)
  | OpAddTurn r c d => modify_state (add_turn r c d)
  | OpExtractFromContext messages => extract_from_context messages
  | OpSaveCallData => save_call_data
  end.

Fixpoint run_ops (ops : list Op) : M unit :=
  match ops with
  | [] => mret ()
  | op :: ops' => run_op op;; run_ops ops'
  end.

(** The delivery attempts of a trace. *)
Definition is_post (ev : Event) : bool :=
  match ev with
  | HttpPost _ _ => true
  | ChatRequest _ _ => false
  end.

Definition delivery_attempts (trace : list Event) : nat :=
  length (filter (λ ev, is_post ev = true) trace).

(** *** Turn backfill, in the words of the specification

    The turn a context message stands for: a message without content, a
    system message and a message of any other role than [user] and
    [assistant] stand for none; a [user] message is a [caller] turn and an
    [assistant] message an [agent] turn. *)
Definition spoken (msg : Message) : option (string * string) :=
  if bool_decide (msg_content msg = "") then None
  else if decide (msg_role msg = "system") then None
  else if decide (msg_role msg = "user") then Some ("caller", msg_content msg)
  else if decide (msg_role msg = "assistant") then Some ("agent", msg_content msg)
  else None.

(** Turns numbered in sequence, the first one [first]. *)
Definition numbered (first : nat) (l : list (string * string)) : list Turn :=
  imap (λ i rc, mkTurn rc.1 rc.2 (first + i) None) l.

Definition is_extract (op : Op) : bool :=
  match op with
  | OpExtractFromContext _ => true
  | _ => false
  end.

Definition is_add_turn (op : Op) : bool :=
  match op with
  | OpAddTurn _ _ _ => true
  | _ => false
  end.

(** The numbering of a state whose turns were appended by [add_turn]. *)
Definition counted (st : CallState) : Prop :=
  turnNumber <$> turns st = seq 1 (length (turns st))
  ∧ turn_counter st = length (turns st).

(** The turn numbers of a state are 1, 2, ... in order. *)
Definition sequential (st : CallState) : Prop :=
  turnNumber <$> turns st = seq 1 (length (turns st)).

(** The guard accounts for every delivery attempt made so far. *)
Definition guarded (w : World) : Prop :=
  delivery_attempts (w_trace w) ≤ (if _saved (w_state w) then 1 else 0).

(** *** The end of a call

    What [run_bot] does with the call state when the client disconnects,
    and again when the pipeline has ended: reconcile, then save. *)
Definition reconcile_and_save (messages : list Message) : M unit :=
  extract_from_context messages;;
  save_call_data.

(** The delivery attempts of a trace, with their payloads. *)
Definition posted (trace : list Event) : list Payload :=
  omap (λ ev, match ev with
              | HttpPost _ payload => Some payload
              | ChatRequest _ _ => None
              end) trace.

Definition is_complete_intake (op : Op) : bool :=
  match op with
  | OpCompleteIntake _ => true
  | _ => false
  end.

(** The intake values and contact details of a call state are still there
    in a later state: every intake key with a non-empty value still has
    one, a known caller name, email and address are still known, and the
    completion flag and the save guard, once set, are still set. The
    summary is left out: the source assigns it without looking at the
    stored one. *)
Definition retained (st st' : CallState) : Prop :=
  (∀ k, truthy (intake_data st !! k) = true → truthy (intake_data st' !! k) = true)
  ∧ (truthy (caller_name st) = true → truthy (caller_name st') = true)
  ∧ (truthy (caller_email st) = true → truthy (caller_email st') = true)
  ∧ (truthy (caller_address st) = true → truthy (caller_address st') = true)
  ∧ (is_complete st = true → is_complete st' = true)
  ∧ (_saved st = true → _saved st' = true).

(** ** Facts about the string operations *)

Lemma str_app_cons (a : ascii) (s t : string) :
  String a s +:+ t = String a (s +:+ t).
Proof. done. Qed.

Lemma str_app_empty_l (s : string) : "" +:+ s = s.
Proof. done. Qed.

Lemma str_app_assoc (s t u : string) : (s +:+ t) +:+ u = s +:+ t +:+ u.
Proof. induction s as [|a s IH]; [done|]. by rewrite !str_app_cons, IH. Qed.

Lemma str_length_app (s t : string) :
  String.length (s +:+ t) = String.length s + String.length t.
Proof. induction s as [|a s IH]; [done|]. rewrite str_app_cons. simpl. by rewrite IH. Qed.

(** *** Whitespace *)

(** The byte tests as arithmetic facts. *)
Lemma space1_spec (a : ascii) :
  space1 a = true ↔
  (9 ≤ nat_of_ascii a ≤ 13 ∨ 28 ≤ nat_of_ascii a ≤ 32)%nat.
Proof.
  unfold space1. cbv zeta.
  rewrite orb_true_iff, !andb_true_iff, !Nat.leb_le. tauto.
Qed.

Lemma space2_spec (a b : ascii) :
  space2 a b = true ↔
  nat_of_ascii a = 194 ∧ (nat_of_ascii b = 133 ∨ nat_of_ascii b = 160).
Proof.
  unfold space2. cbv zeta.
  rewrite andb_true_iff, orb_true_iff, !Nat.eqb_eq. tauto.
Qed.

Lemma space3_spec (a b c : ascii) :
  space3 a b c = true ↔
  (nat_of_ascii a = 225 ∧ nat_of_ascii b = 154 ∧ nat_of_ascii c = 128)
  ∨ (nat_of_ascii a = 226 ∧ nat_of_ascii b = 128
     ∧ (128 ≤ nat_of_ascii c ≤ 138 ∨ nat_of_ascii c = 168
        ∨ nat_of_ascii c = 169 ∨ nat_of_ascii c = 175))
  ∨ (nat_of_ascii a = 226 ∧ nat_of_ascii b = 129 ∧ nat_of_ascii c = 159)
  ∨ (nat_of_ascii a = 227 ∧ nat_of_ascii b = 128 ∧ nat_of_ascii c = 128).
Proof.
  unfold space3. cbv zeta.
  rewrite !orb_true_iff, !andb_true_iff, !orb_true_iff, !andb_true_iff,
    !Nat.eqb_eq, !Nat.leb_le. tauto.
Qed.

(** Turns the byte tests of the context and of the goal into arithmetic. *)
Ltac space_bytes :=
  repeat match goal with
         | H : space1 _ = true |- _ => apply space1_spec in H
         | H : space2 _ _ = true |- _ => apply space2_spec in H
         | H : space3 _ _ _ = true |- _ => apply space3_spec in H
         | H : space1 _ = false |- _ => apply not_true_iff_false in H; rewrite space1_spec in H
         | H : space2 _ _ = false |- _ => apply not_true_iff_false in H; rewrite space2_spec in H
         | H : space3 _ _ _ = false |- _ => apply not_true_iff_false in H; rewrite space3_spec in H
         end;
  try (apply not_true_iff_false;
       first [rewrite space1_spec | rewrite space2_spec | rewrite space3_spec]);
  lia.

(** A string of whitespace is the empty string or one whitespace code
    point, of one, two or three bytes, before a string of whitespace. *)
Lemma all_space_ind (P : string → Prop) :
  P "" →
  (∀ a s, space1 a = true → all_space s = true → P s → P (String a s)) →
  (∀ a b s, space2 a b = true → all_space s = true → P s →
            P (String a (String b s))) →
  (∀ a b c s, space3 a b c = true → all_space s = true → P s →
              P (String a (String b (String c s)))) →
  ∀ s, all_space s = true → P s.
Proof.
  intros H0 H1 H2 H3 s.
  assert (∀ n s, String.length s ≤ n → all_space s = true → P s) as Hn.
  { clear s. induction n as [|n IH]; intros s Hlen.
    - by destruct s; [|cbn in Hlen; lia].
    - destruct s as [|a s1]; [done|]. cbn [all_space String.length] in *.
      destruct (space1 a) eqn:Ha; [intros; apply H1; [done..|apply IH; [lia|done]]|].
      destruct s1 as [|b s2]; [done|]. cbn [String.length] in *.
      destruct (space2 a b) eqn:Hb; [intros; apply H2; [done..|apply IH; [lia|done]]|].
      destruct s2 as [|c s3]; [done|]. cbn [String.length] in *.
      destruct (space3 a b c) eqn:Hc; [|done].
      intros; apply H3; [done..|apply IH; [lia|done]]. }
  by apply (Hn (String.length s)).
Qed.

Lemma lstrip_space_app (ws s : string) :
  all_space ws = true → lstrip (ws +:+ s) = lstrip s.
Proof.
  revert ws. apply all_space_ind; [done|..].
  - intros a ws Ha _ IH. rewrite str_app_cons. cbn [lstrip]. by rewrite Ha.
  - intros a b ws Hab _ IH. rewrite !str_app_cons. cbn [lstrip].
    assert (space1 a = false) as -> by space_bytes. by rewrite Hab.
  - intros a b c ws Habc _ IH. rewrite !str_app_cons. cbn [lstrip].
    assert (space1 a = false) as -> by space_bytes.
    assert (space2 a b = false) as -> by space_bytes. by rewrite Habc.
Qed.

Lemma rstrip_space (ws : string) : all_space ws = true → rstrip ws = "".
Proof.
  revert ws. apply all_space_ind; [done|..].
  - intros a ws Ha _ IH. cbn [rstrip]. rewrite IH. cbn [is_space]. by rewrite Ha.
  - intros a b ws Hab _ IH. cbn [rstrip]. rewrite IH. cbn [is_space].
    assert (space1 b = false) as -> by space_bytes. by rewrite Hab.
  - intros a b c ws Habc _ IH. cbn [rstrip]. rewrite IH. cbn [is_space].
    assert (space1 c = false) as -> by space_bytes.
    assert (space2 b c = false) as -> by space_bytes. by rewrite Habc.
Qed.

Lemma rstrip_app_space (s ws : string) :
  all_space ws = true → rstrip (s +:+ ws) = rstrip s.
Proof.
  intros Hws. induction s as [|c s IH].
  - rewrite str_app_empty_l. by apply rstrip_space.
  - rewrite str_app_cons. cbn [rstrip]. by rewrite IH.
Qed.

Lemma all_space_app (ws1 ws2 : string) :
  all_space ws1 = true → all_space ws2 = true → all_space (ws1 +:+ ws2) = true.
Proof.
  intros H1 H2. revert ws1 H1. apply all_space_ind; [done|..].
  - intros a ws Ha _ IH. rewrite str_app_cons. cbn [all_space]. by rewrite Ha.
  - intros a b ws Hab _ IH. rewrite !str_app_cons. cbn [all_space].
    assert (space1 a = false) as -> by space_bytes. by rewrite Hab.
  - intros a b c ws Habc _ IH. rewrite !str_app_cons. cbn [all_space].
    assert (space1 a = false) as -> by space_bytes.
    assert (space2 a b = false) as -> by space_bytes. by rewrite Habc.
Qed.

(** Whitespace before a text that [rstrip] keeps is kept with it. *)
Lemma rstrip_space_app (ws m : string) :
  all_space ws = true → m ≠ "" → rstrip m = m →
  rstrip (ws +:+ m) = ws +:+ m.
Proof.
  intros Hws Hm Hr. revert ws Hws.
  destruct m as [|d m]; [done|]. clear Hm.
  apply all_space_ind; [done|..].
  - intros a ws Ha _ IH. rewrite str_app_cons. cbn [rstrip]. rewrite IH.
    assert (∃ e y, ws +:+ String d m = String e y) as (e & y & ->)
      by (destruct ws; by eexists _, _).
    cbn [is_space]. destruct y as [|f [|g y]]; [| |done].
    + by assert (space2 a e = false) as -> by space_bytes.
    + by assert (space3 a e f = false) as -> by space_bytes.
  - intros a b ws Hab _ IH. rewrite !str_app_cons. cbn [rstrip]. rewrite IH.
    assert (∃ e y, ws +:+ String d m = String e y) as (e & y & ->)
      by (destruct ws; by eexists _, _).
    assert (is_space (String b (String e y)) = false) as ->.
    { cbn [is_space]. destruct y as [|f [|g y]]; [| |done]; space_bytes. }
    assert (is_space (String a (String b (String e y))) = false) as ->; [|done].
    cbn [is_space]. destruct y as [|f y]; [|done]. space_bytes.
  - intros a b c ws Habc _ IH. rewrite !str_app_cons. cbn [rstrip]. rewrite IH.
    assert (∃ e y, ws +:+ String d m = String e y) as (e & y & ->)
      by (destruct ws; by eexists _, _).
    assert (is_space (String c (String e y)) = false) as ->.
    { cbn [is_space]. destruct y as [|f [|g y]]; [| |done]; space_bytes. }
    assert (is_space (String b (String c (String e y))) = false) as ->.
    { cbn [is_space]. destruct y as [|f y]; [|done]. space_bytes. }
    done.
Qed.

(** [strip] removes the whitespace around a text that neither starts nor
    ends with whitespace. *)
Lemma strip_surrounded (ws1 m ws2 : string) :
  all_space ws1 = true → all_space ws2 = true →
  lstrip m = m → rstrip m = m →
  strip (ws1 +:+ m +:+ ws2) = m.
Proof.
  intros H1 H2 Hl Hr. unfold strip.
  rewrite <- str_app_assoc, rstrip_app_space by done.
  destruct (decide (m = "")) as [->|Hm].
  - replace (ws1 +:+ "") with ws1 by (clear; induction ws1 as [|a s IH]; [done|]; by rewrite str_app_cons, <- IH).
    by rewrite rstrip_space.
  - rewrite rstrip_space_app by done. by rewrite lstrip_space_app.
Qed.

Lemma str_app_empty_r (s : string) : s +:+ "" = s.
Proof. induction s as [|a s IH]; [done|]. by rewrite str_app_cons, IH. Qed.

Lemma all_space_token_app (t ws : string) :
  is_space t = true → all_space ws = true → all_space (t +:+ ws) = true.
Proof.
  intros Ht Hws. destruct t as [|a [|b [|c [|e t]]]]; try done;
    cbn [is_space] in Ht; rewrite ?str_app_cons, str_app_empty_l;
    cbn [all_space].
  - by rewrite Ht.
  - assert (space1 a = false) as -> by space_bytes. by rewrite Ht.
  - assert (space1 a = false) as -> by space_bytes.
    assert (space2 a b = false) as -> by space_bytes. by rewrite Ht.
Qed.

(** What [rstrip] removes is whitespace. *)
Lemma rstrip_decomp (s : string) :
  ∃ ws, s = rstrip s +:+ ws ∧ all_space ws = true.
Proof.
  induction s as [|a s (ws & Hs & Hws)]; [by exists ""|]. cbn [rstrip].
  destruct (is_space (String a (rstrip s))) eqn:Ha.
  - exists (String a (rstrip s) +:+ ws). split.
    + by rewrite str_app_empty_l, str_app_cons, <- Hs.
    + by apply all_space_token_app.
  - exists ws. by rewrite str_app_cons, <- Hs.
Qed.

(** Whitespace that is not empty ends with a whitespace code point. *)
Lemma all_space_suffix (ws : string) :
  all_space ws = true → ws ≠ "" →
  ∃ r sp, is_space sp = true ∧ ws = r +:+ sp.
Proof.
  revert ws.
  apply (all_space_ind
           (λ ws, ws ≠ "" → ∃ r sp, is_space sp = true ∧ ws = r +:+ sp));
    [done|..].
  - intros a ws Ha Hws IH _. destruct (decide (ws = "")) as [->|Hne].
    + by exists "", (String a "").
    + destruct (IH Hne) as (r & sp & Hsp & ->). by exists (String a r), sp.
  - intros a b ws Hab Hws IH _. destruct (decide (ws = "")) as [->|Hne].
    + by exists "", (String a (String b "")).
    + destruct (IH Hne) as (r & sp & Hsp & ->).
      by exists (String a (String b r)), sp.
  - intros a b c ws Habc Hws IH _. destruct (decide (ws = "")) as [->|Hne].
    + by exists "", (String a (String b (String c ""))).
    + destruct (IH Hne) as (r & sp & Hsp & ->).
      by exists (String a (String b (String c r))), sp.
Qed.

Lemma lstrip_fixed (m : string) :
  (∀ sp r, is_space sp = true → m ≠ sp +:+ r) → lstrip m = m.
Proof.
  intros Hm. destruct m as [|a s1]; [done|]. cbn [lstrip].
  destruct (space1 a) eqn:Ha.
  { by destruct (Hm (String a "") s1). }
  destruct s1 as [|b s2]; [done|].
  destruct (space2 a b) eqn:Hb.
  { by destruct (Hm (String a (String b "")) s2). }
  destruct s2 as [|c s3]; [done|].
  destruct (space3 a b c) eqn:Hc; [|done].
  by destruct (Hm (String a (String b (String c ""))) s3).
Qed.

Lemma rstrip_fixed (m : string) :
  (∀ sp r, is_space sp = true → m ≠ r +:+ sp) → rstrip m = m.
Proof.
  intros Hm. destruct (rstrip_decomp m) as (ws & Hdec & Hws).
  destruct (decide (ws = "")) as [->|Hne].
  - by rewrite str_app_empty_r in Hdec.
  - destruct (all_space_suffix ws Hws Hne) as (r & sp & Hsp & ->).
    destruct (Hm sp (rstrip m +:+ r) Hsp). by rewrite str_app_assoc.
Qed.

(** [strip] on every text that is given as whitespace, a text that neither
    starts nor ends with a whitespace code point, and whitespace: the
    result is the text in the middle. *)
Lemma strip_spec (ws1 m ws2 : string) :
  all_space ws1 = true → all_space ws2 = true →
  (∀ sp r, is_space sp = true → m ≠ sp +:+ r ∧ m ≠ r +:+ sp) →
  strip (ws1 +:+ m +:+ ws2) = m.
Proof.
  intros H1 H2 Hm. apply strip_surrounded; [done|done| |].
  - apply lstrip_fixed. intros sp r Hsp. by destruct (Hm sp r Hsp).
  - apply rstrip_fixed. intros sp r Hsp. by destruct (Hm sp r Hsp).
Qed.

(** A text that starts with a character of ASCII that is not whitespace
    keeps its start, and one that ends with such a character its end. *)
Lemma lstrip_plain (a : ascii) (s : string) :
  nat_of_ascii a < 128 → space1 a = false → lstrip (String a s) = String a s.
Proof.
  intros Hlt Ha. cbn [lstrip]. rewrite Ha.
  destruct s as [|b s]; [done|].
  assert (space2 a b = false) as -> by space_bytes.
  destruct s as [|c s]; [done|].
  by assert (space3 a b c = false) as -> by space_bytes.
Qed.

Lemma rstrip_snoc_plain (s : string) (c : ascii) :
  nat_of_ascii c < 128 → space1 c = false →
  rstrip (s +:+ String c "") = s +:+ String c "".
Proof.
  intros Hlt Hc. induction s as [|a s IH].
  - rewrite str_app_empty_l. cbn [rstrip is_space]. by rewrite Hc.
  - rewrite str_app_cons. cbn [rstrip]. rewrite IH.
    assert (is_space (String a (s +:+ String c "")) = false) as ->; [|done].
    destruct s as [|b [|e s]];
      rewrite ?str_app_cons, ?str_app_empty_l; cbn [is_space];
      [space_bytes..|].
    destruct s; by rewrite ?str_app_cons, ?str_app_empty_l.
Qed.

Lemma startswith_app (p s : string) : startswith p (p +:+ s) = true.
Proof.
  induction p as [|a p IH]; [done|]. rewrite str_app_cons. cbn [startswith].
  by rewrite bool_decide_eq_true_2, IH.
Qed.

Lemma endswith_app (p s : string) : endswith p (s +:+ p) = true.
Proof.
  induction s as [|a s IH].
  - rewrite str_app_empty_l. destruct p; cbn [endswith]; by rewrite bool_decide_eq_true_2.
  - rewrite str_app_cons. cbn [endswith]. rewrite IH. apply orb_true_r.
Qed.

Lemma contains_char_app (c : ascii) (s t : string) :
  contains_char c (s +:+ t) = contains_char c s || contains_char c t.
Proof.
  induction s as [|a s IH]; [done|]. rewrite str_app_cons. cbn [contains_char].
  by rewrite IH, orb_assoc.
Qed.

Lemma after_first_app (c : ascii) (s t : string) :
  contains_char c s = false → after_first c (s +:+ String c t) = t.
Proof.
  induction s as [|a s IH]; cbn [contains_char].
  - intros _. rewrite str_app_empty_l. cbn [after_first]. by rewrite bool_decide_eq_true_2.
  - intros [Ha Hs]%orb_false_iff. rewrite str_app_cons. cbn [after_first]. rewrite Ha. auto.
Qed.

Lemma take_front_app (s t : string) : take_front (String.length s) (s +:+ t) = s.
Proof.
  induction s as [|a s IH]; [by destruct t|].
  rewrite str_app_cons. cbn [String.length take_front]. by rewrite IH.
Qed.

Lemma drop_back_app (s p : string) : drop_back (String.length p) (s +:+ p) = s.
Proof.
  unfold drop_back. rewrite str_length_app.
  replace (String.length s + String.length p - String.length p)
    with (String.length s) by lia.
  apply take_front_app.
Qed.

(** A text that starts with a character of ASCII that is not whitespace
    does not strip to the empty string. *)
Lemma strip_nonempty (a : ascii) (s : string) :
  nat_of_ascii a < 128 → space1 a = false → strip (String a s) ≠ "".
Proof.
  intros Hlt Ha. unfold strip. cbn [rstrip].
  assert (is_space (String a (rstrip s)) = false) as ->.
  { destruct (rstrip s) as [|b [|c [|e r]]]; cbn [is_space]; [space_bytes..|done]. }
  by rewrite lstrip_plain.
Qed.

(** Code-fence stripping on a fenced payload: the opening fence with its
    info string, the line break after it and the closing fence are
    removed, whatever whitespace surrounds the fences. *)
Lemma strip_code_fences_fenced (ws1 info body ws2 : string) :
  all_space ws1 = true → all_space ws2 = true →
  contains_char nl_char info = false →
  strip_code_fences
    (ws1 +:+ "```" +:+ info +:+ nl +:+ body +:+ "```" +:+ ws2)
  = strip body.
Proof.
  intros Hws1 Hws2 Hinfo. unfold strip_code_fences.
  assert (strip (ws1 +:+ "```" +:+ info +:+ nl +:+ body +:+ "```" +:+ ws2)
          = "```" +:+ info +:+ nl +:+ body +:+ "```") as ->.
  { unfold strip.
    replace (ws1 +:+ "```" +:+ info +:+ nl +:+ body +:+ "```" +:+ ws2)
      with ((ws1 +:+ "```" +:+ info +:+ nl +:+ body +:+ "```") +:+ ws2)
      by by rewrite !str_app_assoc.
    rewrite rstrip_app_space by done.
    replace (ws1 +:+ "```" +:+ info +:+ nl +:+ body +:+ "```")
      with ((ws1 +:+ "```" +:+ info +:+ nl +:+ body +:+ "``") +:+ String "`" "")
      by by rewrite !str_app_assoc.
    rewrite rstrip_snoc_plain by (first [reflexivity | vm_compute; lia]).
    rewrite !str_app_assoc. rewrite lstrip_space_app by done. done. }
  rewrite startswith_app.
  assert (contains_char nl_char ("```" +:+ info +:+ nl +:+ body +:+ "```") = true) as ->.
  { rewrite !contains_char_app. simpl. by rewrite !orb_true_r. }
  replace ("```" +:+ info +:+ nl +:+ body +:+ "```")
    with (("```" +:+ info) +:+ String nl_char (body +:+ "```"))
    by by rewrite !str_app_assoc.
  rewrite after_first_app by (by rewrite contains_char_app, Hinfo).
  rewrite endswith_app.
  f_equal. exact (drop_back_app body "```").
Qed.

Lemma startswith_inv (p s : string) :
  startswith p s = true → ∃ r, s = p +:+ r.
Proof.
  revert s. induction p as [|a p IH]; intros s; [by exists s|].
  destruct s as [|b s]; [done|]. cbn [startswith].
  intros [Hab Hp]%andb_true_iff. apply bool_decide_eq_true in Hab as ->.
  destruct (IH s Hp) as [r ->]. by exists r.
Qed.

Lemma endswith_inv (p s : string) :
  endswith p s = true → ∃ b, s = b +:+ p.
Proof.
  induction s as [|a s IH]; cbn [endswith].
  - rewrite orb_false_r. intros ->%bool_decide_eq_true. by exists "".
  - intros [->%bool_decide_eq_true|Hs]%orb_true_iff; [by exists ""|].
    destruct (IH Hs) as [b ->]. by exists (String a b).
Qed.

Lemma contains_char_inv (c : ascii) (s : string) :
  contains_char c s = true → ∃ l r, s = l +:+ String c r.
Proof.
  induction s as [|a s IH]; [done|]. cbn [contains_char].
  intros [->%bool_decide_eq_true|Hs]%orb_true_iff; [by exists "", s|].
  destruct (IH Hs) as (l & r & ->). by exists (String a l), r.
Qed.

(** Code-fence stripping on every text, by the shape of the text. The
    stripped answer loses an opening fence: with the rest of its first line
    when it has a line break, and alone otherwise. What is left loses a
    closing fence, and is stripped again. *)
Lemma strip_code_fences_cases (content : string) :
  ∃ opened,
    ((∀ r, strip content ≠ "```" +:+ r) → opened = strip content)
    ∧ (∀ info rest,
         strip content = "```" +:+ info +:+ nl +:+ rest →
         (∀ l r, info ≠ l +:+ nl +:+ r) → opened = rest)
    ∧ (∀ rest,
         strip content = "```" +:+ rest →
         (∀ l r, rest ≠ l +:+ nl +:+ r) → opened = rest)
    ∧ (∀ body, opened = body +:+ "```" → strip_code_fences content = strip body)
    ∧ ((∀ body, opened ≠ body +:+ "```") →
         strip_code_fences content = strip opened).
Proof.
  unfold strip_code_fences. set (text := strip content).
  assert (∀ s, (∀ l r, s ≠ l +:+ nl +:+ r) → contains_char nl_char s = false)
    as Hnl.
  { intros s Hs. apply not_true_iff_false. intros (l & r & ->)%contains_char_inv.
    by apply (Hs l r). }
  exists (if startswith "```" text then
            if contains_char nl_char text then after_first nl_char text
            else drop_front 3 text
          else text).
  split; [|split; [|split; [|split]]].
  - intros Hno. destruct (startswith "```" text) eqn:Hs; [|reflexivity].
    apply startswith_inv in Hs as [r Hr]. by destruct (Hno r).
  - intros info rest -> Hinfo. rewrite startswith_app.
    assert (contains_char nl_char ("```" +:+ info +:+ nl +:+ rest) = true) as ->.
    { rewrite !contains_char_app. simpl. by rewrite !orb_true_r. }
    replace ("```" +:+ info +:+ nl +:+ rest)
      with (("```" +:+ info) +:+ String nl_char rest)
      by by rewrite !str_app_assoc.
    apply after_first_app. rewrite contains_char_app, (Hnl info Hinfo). done.
  - intros rest -> Hrest. rewrite startswith_app.
    rewrite contains_char_app, (Hnl rest Hrest). done.
  - intros body ->. rewrite endswith_app. f_equal.
    exact (drop_back_app body "```").
  - intros Hno.
    match goal with
    | |- context [endswith "```" ?o] =>
        destruct (endswith "```" o) eqn:He; [|reflexivity];
        apply endswith_inv in He as [b Hb]; by destruct (Hno b)
    end.
Qed.

(** ** Properties of the function-call handlers *)

Lemma nonempty_true (s : string) : nonempty s = true ↔ s ≠ "".
Proof.
  unfold nonempty. rewrite negb_true_iff, bool_decide_eq_false. done.
Qed.

(** The loop over [fields.items()]: a submitted non-empty value is stored,
    any other key keeps what it had. *)
Lemma store_items_lookup (l : list (string * string)) (d : gmap string string) (k : string) :
  NoDup l.*1 →
  foldl store_item d l !! k =
    match (list_to_map l : gmap string string) !! k with
    | Some v => if nonempty v then Some v else d !! k
    | None => d !! k
    end.
Proof.
  revert d. induction l as [|[k0 v0] l IH]; intros d Hnd; simpl.
  - by rewrite lookup_empty.
  - apply NoDup_cons in Hnd as [Hk0 Hnd]. rewrite IH by done.
    destruct (decide (k = k0)) as [->|Hne].
    + rewrite lookup_insert_eq.
      rewrite (not_elem_of_list_to_map_1 _ _ Hk0).
      unfold store_item; simpl. destruct (nonempty v0); [|done].
      by rewrite lookup_insert_eq.
    + rewrite lookup_insert_ne by done.
      assert (store_item d (k0, v0) !! k = d !! k) as ->; [|done].
      unfold store_item; simpl. destruct (nonempty v0); [|done].
      by rewrite lookup_insert_ne.
Qed.

Lemma update_intake_lookup (st : CallState) (fields : gmap string string) (k : string) :
  intake_data (handle_update_intake st (Some fields)).1 !! k =
    match fields !! k with
    | Some v => if nonempty v then Some v else intake_data st !! k
    | None => intake_data st !! k
    end.
Proof.
  simpl. rewrite store_items_lookup by apply NoDup_fst_map_to_list.
  by rewrite list_to_map_to_list.
Qed.

(** The pre-seeding loop: a key that is present keeps its value, an absent
    key of the schema gets the empty string, no other key appears. *)
Lemma seed_fields_lookup (fields : list Field) (d : gmap string string) (k : string) :
  foldl seed_field d fields !! k =
    match d !! k with
    | Some v => Some v
    | None => if decide (k ∈ key <$> fields) then Some "" else None
    end.
Proof.
  revert d. induction fields as [|f fields IH]; intros d; cbn [foldl].
  - destruct (d !! k); [done|]. case_decide as Hin; [by apply elem_of_nil in Hin|done].
  - rewrite IH. unfold seed_field.
    destruct (decide (k = key f)) as [->|Hne].
    + destruct (d !! key f) eqn:Hd; rewrite ?Hd; [done|].
      rewrite lookup_insert_eq. rewrite decide_True; [done|]. rewrite fmap_cons. apply list_elem_of_here.
    + assert ((match d !! key f with Some _ => d | None => <[key f:=""]> d end) !! k
              = d !! k) as ->.
      { destruct (d !! key f); [done|]. by rewrite lookup_insert_ne. }
      destruct (d !! k); [done|].
      destruct (decide (k ∈ key <$> fields)) as [Hin|Hnin].
      * rewrite decide_True; [done|]. rewrite fmap_cons. by apply list_elem_of_further.
      * rewrite decide_False; [done|]. rewrite fmap_cons. by intros [?|?]%elem_of_cons.
Qed.

(** C6. [update_intake_fields] stores every submitted key whose value is
    not the empty string, overwriting what the key held, and ignores every
    submitted key whose value is the empty string, so that an empty string
    never replaces a stored value. The rule is the same for every key:
    no schema is consulted, and a key outside the active schema is stored
    like any other. Keys that are not submitted keep what they had. *)
Theorem update_intake_fields_stores_nonempty_values
    (st : CallState) (fields : gmap string string) (k : string) :
  let st' := (handle_update_intake st (Some fields)).1 in
  intake_data st' !! k =
    match fields !! k with
    | Some v => if nonempty v then Some v else intake_data st !! k
    | None => intake_data st !! k
    end
  ∧ (∀ v, fields !! k = Some v → v ≠ "" → intake_data st' !! k = Some v)
  ∧ (fields !! k = Some "" → intake_data st' !! k = intake_data st !! k)
  ∧ (fields !! k = None → intake_data st' !! k = intake_data st !! k).
Proof.
  intros st'. pose proof (update_intake_lookup st fields k) as Hk.
  fold st' in Hk. split; [done|]. rewrite Hk. repeat split.
  - intros v -> Hv. apply nonempty_true in Hv. by rewrite Hv.
  - by intros ->.
  - by intros ->.
Qed.

(** C10. [update_caller_info] assigns a caller name, email or address only
    from an argument that is present and not empty; an absent argument
    leaves the stored value as it was, a known value stays known after any
    invocation, and an invocation with no argument returns the call state
    it was given. *)
Theorem update_caller_info_merges_present_arguments
    (st : CallState) (name email address : option string) :
  let st' := (handle_update_caller st name email address).1 in
  caller_name st' = (if truthy name then name else caller_name st)
  ∧ caller_email st' = (if truthy email then email else caller_email st)
  ∧ caller_address st' = (if truthy address then address else caller_address st)
  ∧ caller_name (handle_update_caller st None email address).1 = caller_name st
  ∧ caller_email (handle_update_caller st name None address).1 = caller_email st
  ∧ caller_address (handle_update_caller st name email None).1 = caller_address st
  ∧ truthy (caller_name st') = truthy name || truthy (caller_name st)
  ∧ truthy (caller_email st') = truthy email || truthy (caller_email st)
  ∧ truthy (caller_address st') = truthy address || truthy (caller_address st)
  ∧ handle_update_caller st None None None =
      (st, "Caller information updated. Continue with the intake.").
Proof.
  unfold handle_update_caller. destruct st; simpl.
  destruct (truthy name) eqn:Hn, (truthy email) eqn:He,
    (truthy address) eqn:Ha; simpl; rewrite ?Hn, ?He, ?Ha; done.
Qed.

(** C7. [classify_call] with call type [emergency] changes nothing of the
    call state but the call type: the intake data is what it was, the
    context messages are untouched, and the returned directive asks for
    immediate safety instructions and promises that a technician will call
    back within 15 minutes. *)
Theorem classify_call_emergency_skips_intake
    (st : CallState) (messages : list Message) :
  let directive :=
    "Call classified as emergency. Provide immediate safety instructions and assure the caller a technician will call back within 15 minutes." in
  handle_classify_call st messages (Some "emergency") =
    (set_call_type (Some "emergency") st, messages, Some directive)
  ∧ intake_data (handle_classify_call st messages (Some "emergency")).1.1
    = intake_data st
  ∧ contains_str "immediate safety instructions" directive = true
  ∧ contains_str "a technician will call back within 15 minutes" directive = true.
Proof. by destruct st. Qed.

(** C5. For a call type other than [emergency] that has a registry entry,
    [classify_call] leaves the intake data with every field key of that
    entry present: a key that was absent is mapped to the empty string, a
    key that held a value keeps it, and no key outside the entry is added
    or changed. On a fresh call state, classifying as [design] gives
    exactly the eight design keys, each mapped to the empty string. *)
Theorem classify_call_preseeds_intake_data
    (st : CallState) (messages : list Message) (ct : string)
    (fields : list Field) :
  ct ≠ "emergency" →
  CALL_TYPE_FIELDS !! ct = Some fields →
  let st' := (handle_classify_call st messages (Some ct)).1.1 in
  (∀ f, f ∈ fields → is_Some (intake_data st' !! key f))
  ∧ (∀ k, k ∈ key <$> fields → intake_data st !! k = None →
          intake_data st' !! k = Some "")
  ∧ (∀ k v, intake_data st !! k = Some v → intake_data st' !! k = Some v)
  ∧ (∀ k, k ∉ key <$> fields → intake_data st' !! k = intake_data st !! k)
  ∧ (∀ sid number dir ct0 name,
       intake_data
         (handle_classify_call (CallState_init sid number dir ct0 name)
            messages (Some "design")).1.1
       = list_to_map
           [ ("buildingType", ""); ("buildingSize", ""); ("location", "");
             ("projectGoals", ""); ("timeline", ""); ("budget", "");
             ("existingSystem", ""); ("specialRequirements", "") ]).
Proof.
  intros Hne Hfields st'.
  assert (∀ k, intake_data st' !! k =
            match intake_data st !! k with
            | Some v => Some v
            | None => if decide (k ∈ key <$> fields) then Some "" else None
            end) as Hlookup.
  { intros k. subst st'. unfold handle_classify_call. simpl.
    rewrite decide_False by done. rewrite Hfields. simpl.
    destruct messages; simpl; apply seed_fields_lookup. }
  repeat split.
  - intros f Hf. rewrite Hlookup. destruct (intake_data st !! key f); [done|].
    rewrite decide_True; [done|]. by apply list_elem_of_fmap_2.
  - intros k Hk Hnone. rewrite Hlookup, Hnone. by rewrite decide_True.
  - intros k v Hv. by rewrite Hlookup, Hv.
  - intros k Hk. rewrite Hlookup. destruct (intake_data st !! k); [done|].
    by rewrite decide_False.
  - intros. by destruct messages.
Qed.

(** C1, as the code has it. The status string of [update_intake_fields]
    names by label, in schema order, exactly the fields of the active call
    type, required and optional alike, that have no non-empty stored
    value; it signals that all fields are collected, and asks for a
    read-back and a confirmation, exactly when every field of the active
    call type, optional ones included, has a non-empty stored value (which
    is always so when the call type has no schema). The string starts with
    the number of submitted keys and the count of required fields that
    have a value. *)
Theorem update_intake_status_names_missing_fields
    (st : CallState) (args_fields : option (gmap string string)) :
  let st' := (handle_update_intake st args_fields).1 in
  let status := (handle_update_intake st args_fields).2 in
  let schema := fields_of (call_type st) in
  let required_fields := filter (λ f, required f = true) schema in
  let missing := filter (λ f, has_value (intake_data st') f = false) schema in
  let progress :=
    "Updated " +:+ str_of_nat (size (default ∅ args_fields)) +:+ " field(s). " +:+
    str_of_nat (length (filter (λ f, has_value (intake_data st') f = true)
                          required_fields)) +:+ "/" +:+
    str_of_nat (length required_fields) +:+ " required fields collected." in
  (missing = [] ↔
     Forall (λ f, ∃ v, intake_data st' !! key f = Some v ∧ v ≠ "") schema)
  ∧ (∀ f, f ∈ missing ↔
          f ∈ schema ∧ (intake_data st' !! key f = None ∨
                        intake_data st' !! key f = Some ""))
  ∧ (missing = [] →
       status = progress +:+
         " All fields collected! Read back a summary and ask the caller to confirm.")
  ∧ (missing ≠ [] →
       status = progress +:+ " Still needed: " +:+
                join ", " (label <$> missing) +:+ ".").
Proof.
  intros st' status schema required_fields missing progress.
  assert (∀ f, has_value (intake_data st') f = false ↔
               intake_data st' !! key f = None ∨
               intake_data st' !! key f = Some "") as Hval.
  { intros f. unfold has_value, truthy.
    destruct (intake_data st' !! key f) as [v|]; [|by split; [left|]].
    rewrite negb_false_iff, bool_decide_eq_true.
    split; [by intros ->; right|]. by intros [?|[= ->]]. }
  assert (status =
            match missing with
            | [] => progress +:+
                " All fields collected! Read back a summary and ask the caller to confirm."
            | _ :: _ => progress +:+ " Still needed: " +:+
                join ", " (label <$> missing) +:+ "."
            end) as Hstatus by reflexivity.
  split; [|split; [|split]].
  - unfold missing. rewrite Forall_forall. split.
    + intros Hnil f Hf.
      destruct (has_value (intake_data st') f) eqn:Hv.
      * unfold has_value, truthy in Hv.
        destruct (intake_data st' !! key f) as [v|]; [|done].
        exists v. split; [done|]. by apply nonempty_true.
      * assert (f ∈ filter (λ f, has_value (intake_data st') f = false) schema)
          as Hin by by apply list_elem_of_filter.
        rewrite Hnil in Hin. by apply elem_of_nil in Hin.
    + intros Hall.
      destruct (filter (λ f, has_value (intake_data st') f = false) schema)
        as [|f l] eqn:Hfl; [done|].
      assert (f ∈ filter (λ f, has_value (intake_data st') f = false) schema)
        as [Hv Hf]%list_elem_of_filter by (rewrite Hfl; apply list_elem_of_here).
      destruct (Hall f Hf) as (v & Hsome & Hnz).
      apply Hval in Hv as [Hv|Hv]; congruence.
  - intros f. unfold missing. rewrite list_elem_of_filter, Hval. tauto.
  - intros Hm. by rewrite Hstatus, Hm.
  - intros Hm. rewrite Hstatus. by destruct missing.
Qed.


(** ** Runs of the effectful functions *)

Ltac run_monad :=
  unfold when; unfold mbind, M_bind, mret, M_ret, try_except, modify_state,
    get_state, emit, raise; cbn [w_state w_trace].

Lemma request_content_run (model : string) (messages : list Message) (w : World) :
  request_content model messages w =
    (match chat_completions_create model messages with
     | CompletionRaises => inl APIError
     | CompletionContent None => inl AttributeError
     | CompletionContent (Some c) => inr c
     end,
     mkWorld (w_state w) (w_trace w ++ [ChatRequest model messages])).
Proof.
  unfold request_content. run_monad.
  by destruct (chat_completions_create model messages) as [|[c|]].
Qed.

Lemma post_call_extraction_run (transcript ct : string) (w : World) :
  post_call_extraction transcript ct w =
    (inr (default PyNone (parsed_answer transcript ct)),
     mkWorld (w_state w) (w_trace w ++ [extraction_request transcript ct])).
Proof.
  unfold post_call_extraction, parsed_answer. unfold try_except, mbind, M_bind.
  rewrite request_content_run.
  destruct (chat_completions_create _ _) as [|[c|]]; [done| |done].
  by destruct (json_loads (strip_code_fences c)).
Qed.

Lemma generate_summary_run (transcript : string) (w : World) :
  ∃ s, generate_summary transcript w =
    (inr s, mkWorld (w_state w) (w_trace w ++ [summary_request transcript])).
Proof.
  unfold generate_summary. unfold try_except, mbind, M_bind.
  rewrite request_content_run.
  destruct (chat_completions_create _ _) as [|[c|]]; by eexists.
Qed.

Lemma backfill_intake_run (w : World) :
  let st1 := w_state w in
  let transcript := transcript_of (turns st1) in
  let gate := intake_blank (intake_data st1) && nonempty (strip transcript) in
  ∃ r, backfill_intake w =
    (r, mkWorld (reconcile_intake st1)
          (w_trace w ++
           if gate
           then [extraction_request transcript (call_type_or_unknown (call_type st1))]
           else [])).
Proof.
  intros st1 transcript gate. subst gate transcript st1.
  unfold backfill_intake, reconcile_intake. destruct w as [st tr]. run_monad.
  destruct (intake_blank (intake_data st)); cbn [andb].
  2:{ exists (inr ()). by rewrite List.app_nil_r. }
  destruct (nonempty (strip (transcript_of (turns st)))); cbn [andb].
  2:{ exists (inr ()). by rewrite List.app_nil_r. }
  rewrite post_call_extraction_run. cbn [w_state w_trace].
  destruct (parsed_answer _ _) as [[|e|b]|];
    cbn [default from_option id value_truthy]; unfold apply_extracted;
    run_monad; try by eexists.
  - destruct (dict_truthy e); by eexists.
  - destruct b; by eexists.
Qed.

Lemma backfill_summary_run (w : World) :
  ∃ st' evs,
    backfill_summary w = (inr (), mkWorld st' (w_trace w ++ evs))
    ∧ (evs = [] ∨ ∃ t, evs = [summary_request t])
    ∧ (st' = w_state w ∨ ∃ s, st' = set_summary s (w_state w)).
Proof.
  unfold backfill_summary. destruct w as [st tr]. run_monad.
  destruct (negb (truthy (summary st)) && negb (bool_decide (turns st = []))).
  - destruct (generate_summary_run (transcript_of (turns st)) (mkWorld st tr))
      as [s ->]. cbn [w_state w_trace].
    exists (set_summary s st), [summary_request (transcript_of (turns st))].
    split; [done|]. split; right; by eexists.
  - exists st, []. rewrite List.app_nil_r. auto.
Qed.

Lemma extract_from_context_run (messages : list Message) (w : World) :
  let st1 := build_turns messages (w_state w) in
  let transcript := transcript_of (turns st1) in
  let ct := call_type_or_unknown (call_type st1) in
  let gate := intake_blank (intake_data st1) && nonempty (strip transcript) in
  ∃ st' evs,
    extract_from_context messages w =
      (inr (),
       mkWorld st'
         (w_trace w ++
          (if gate then [extraction_request transcript ct] else []) ++ evs))
    ∧ (evs = [] ∨ ∃ t, evs = [summary_request t])
    ∧ (st' = reconcile_intake st1 ∨ ∃ s, st' = set_summary s (reconcile_intake st1)).
Proof.
  intros st1 transcript ct gate. unfold extract_from_context.
  unfold try_except, mbind, M_bind, modify_state. fold st1.
  destruct (backfill_intake_run (mkWorld st1 (w_trace w))) as [r Hr].
  cbn [w_state w_trace] in Hr. rewrite Hr. fold transcript ct gate.
  destruct r as [e|[]].
  - exists (reconcile_intake st1), []. rewrite List.app_nil_r. auto.
  - destruct (backfill_summary_run
                (mkWorld (reconcile_intake st1)
                   (w_trace w ++ if gate then [extraction_request transcript ct] else [])))
      as (st' & evs & -> & Hevs & Hst).
    cbn [w_state w_trace] in *. exists st', evs. by rewrite <- (assoc_L (++)).
Qed.

(** ** Post-call extraction *)

(** C9. [post_call_extraction] always returns and never raises: it leaves
    the call state alone, sends one request, and returns [None] when the
    request fails, when the answer has no text, or when [json.loads]
    rejects the text. Before parsing it strips the answer, removes a
    leading Markdown code fence (with its info string) and a trailing one,
    and strips again: for an answer that is a payload inside code fences,
    whatever whitespace is around them, the result is what [json.loads]
    makes of the stripped payload. An answer without fences is parsed
    after stripping only.

    The text that is parsed is fixed for every answer, by the shape of the
    stripped answer. Without an opening fence it is kept; with an opening
    fence and a line break, what follows the first line break is kept;
    with an opening fence and no line break, what follows the three
    characters of the fence is kept. If what is kept ends with a fence, the
    fence is removed. The result is stripped once more. Stripping removes
    the whitespace, of any of the code points that [str.strip] removes,
    around a text that neither starts nor ends with one. *)
Theorem post_call_extraction_strips_fences_and_never_raises
    (transcript ct : string) (w : World) :
  let answer :=
    chat_completions_create "gpt-4o-mini" (extraction_messages transcript ct) in
  let w' :=
    mkWorld (w_state w) (w_trace w ++ [extraction_request transcript ct]) in
  (∃ v, post_call_extraction transcript ct w = (inr v, w'))
  ∧ (answer = CompletionRaises →
       post_call_extraction transcript ct w = (inr PyNone, w'))
  ∧ (answer = CompletionContent None →
       post_call_extraction transcript ct w = (inr PyNone, w'))
  ∧ (∀ c, answer = CompletionContent (Some c) →
       json_loads (strip_code_fences c) = None →
       post_call_extraction transcript ct w = (inr PyNone, w'))
  ∧ (∀ c v, answer = CompletionContent (Some c) →
       json_loads (strip_code_fences c) = Some v →
       post_call_extraction transcript ct w = (inr v, w'))
  ∧ (∀ ws1 info body ws2,
       all_space ws1 = true → all_space ws2 = true →
       contains_char nl_char info = false →
       strip_code_fences
         (ws1 +:+ "```" +:+ info +:+ nl +:+ body +:+ "```" +:+ ws2)
       = strip body)
  ∧ (∀ ws1 info body ws2 v,
       all_space ws1 = true → all_space ws2 = true →
       contains_char nl_char info = false →
       answer = CompletionContent
                  (Some (ws1 +:+ "```" +:+ info +:+ nl +:+ body +:+ "```" +:+ ws2)) →
       json_loads (strip body) = Some v →
       post_call_extraction transcript ct w = (inr v, w'))
  ∧ (∀ c, startswith "```" (strip c) = false →
          endswith "```" (strip c) = false →
          strip_code_fences c = strip (strip c))
  ∧ (∀ c, ∃ opened,
       ((∀ r, strip c ≠ "```" +:+ r) → opened = strip c)
       ∧ (∀ info rest,
            strip c = "```" +:+ info +:+ nl +:+ rest →
            (∀ l r, info ≠ l +:+ nl +:+ r) → opened = rest)
       ∧ (∀ rest,
            strip c = "```" +:+ rest →
            (∀ l r, rest ≠ l +:+ nl +:+ r) → opened = rest)
       ∧ (∀ body, opened = body +:+ "```" → strip_code_fences c = strip body)
       ∧ ((∀ body, opened ≠ body +:+ "```") →
            strip_code_fences c = strip opened))
  ∧ (∀ ws1 m ws2,
       all_space ws1 = true → all_space ws2 = true →
       (∀ sp r, is_space sp = true → m ≠ sp +:+ r ∧ m ≠ r +:+ sp) →
       strip (ws1 +:+ m +:+ ws2) = m).
Proof.
  intros answer w'. pose proof (post_call_extraction_run transcript ct w) as Hrun.
  fold w' in Hrun. unfold parsed_answer in Hrun. fold answer in Hrun.
  split; [by eexists|]. rewrite Hrun.
  split; [by intros ->|]. split; [by intros ->|].
  split; [by intros c -> ->|]. split; [by intros c v -> ->|].
  split; [by intros; apply strip_code_fences_fenced|].
  split; [|split; [|split]].
  - intros ws1 info body ws2 v H1 H2 H3 -> Hv.
    by rewrite strip_code_fences_fenced, Hv.
  - intros c Hs He. unfold strip_code_fences. by rewrite Hs, He.
  - exact strip_code_fences_cases.
  - exact strip_spec.
Qed.

(** ** Persistence *)

Lemma save_call_data_noop (w : World) :
  _saved (w_state w) = true ∨ turns (w_state w) = [] →
  save_call_data w = (inr (), w).
Proof.
  destruct w as [st tr]. unfold save_call_data. run_monad.
  intros [Hs|Ht].
  - by rewrite Hs.
  - destruct (_saved st); [done|]. by rewrite bool_decide_eq_true_2.
Qed.

Lemma save_call_data_delivers (w : World) :
  _saved (w_state w) = false → turns (w_state w) ≠ [] →
  save_call_data w =
    (inr (),
     mkWorld (set_saved true (w_state w))
       (w_trace w ++
        [HttpPost (default "http://localhost:3000" NEXTJS_API_URL +:+ "/api/call-complete")
           (to_payload (set_saved true (w_state w)))])).
Proof.
  destruct w as [st tr]. unfold save_call_data. run_monad.
  intros Hs Ht. rewrite Hs, bool_decide_eq_false_2 by done.
  by destruct (session_post _ _).
Qed.

(** No operation other than [save_call_data] touches the save guard. *)
Lemma saved_build_turns (messages : list Message) (st : CallState) :
  _saved (build_turns messages st) = _saved st.
Proof. unfold build_turns. by destruct (bool_decide _). Qed.

Lemma saved_merge_extracted (e : Extracted) (st : CallState) :
  _saved (merge_extracted e st) = _saved st.
Proof.
  unfold merge_extracted.
  repeat match goal with
         | |- context [if ?b then _ else _] => destruct b
         end; done.
Qed.

Lemma saved_reconcile_intake (st : CallState) :
  _saved (reconcile_intake st) = _saved st.
Proof.
  unfold reconcile_intake.
  destruct (_ && _); [|done].
  destruct (parsed_answer _ _) as [[|e|b]|]; try done.
  destruct (dict_truthy e); [|done]. apply saved_merge_extracted.
Qed.

Lemma saved_handlers (st : CallState) :
  (∀ messages ct, _saved (handle_classify_call st messages ct).1.1 = _saved st)
  ∧ (∀ fields, _saved (handle_update_intake st fields).1 = _saved st)
  ∧ (∀ name email address,
       _saved (handle_update_caller st name email address).1 = _saved st)
  ∧ (∀ s, _saved (handle_complete_intake st s).1 = _saved st)
  ∧ (∀ r c d, _saved (add_turn r c d st) = _saved st).
Proof.
  repeat split; try done.
  - intros messages ct. unfold handle_classify_call.
    destruct (decide _); [done|]. by destruct messages.
  - intros name email address. unfold handle_update_caller.
    by destruct (truthy name), (truthy email), (truthy address).
Qed.

Lemma delivery_attempts_app (tr evs : list Event) :
  delivery_attempts (tr ++ evs) = delivery_attempts tr + delivery_attempts evs.
Proof. unfold delivery_attempts. by rewrite filter_app, length_app. Qed.

Lemma run_op_guarded (op : Op) (w : World) :
  guarded w → ∃ w', run_op op w = (inr (), w') ∧ guarded w'.
Proof.
  unfold guarded. intros Hw. destruct (saved_handlers (w_state w))
    as (Hc & Hi & Hu & Hk & Ha).
  destruct op; cbn [run_op]; unfold modify_state;
    try (eexists; split; [done|]; cbn [w_state w_trace];
         by rewrite ?Hc, ?Hi, ?Hu, ?Hk, ?Ha).
  - destruct (extract_from_context_run messages w)
      as (st' & evs & -> & Hevs & Hst).
    eexists; split; [done|]. cbn [w_state w_trace].
    assert (_saved st' = _saved (w_state w)) as ->.
    { destruct Hst as [->|[s ->]]; cbn [_saved set_summary];
        by rewrite saved_reconcile_intake, saved_build_turns. }
    rewrite !delivery_attempts_app.
    assert (delivery_attempts evs = 0) as ->
      by (by destruct Hevs as [->|[t ->]]).
    assert (∀ t c, delivery_attempts [extraction_request t c] = 0) as Hx by done.
    assert (delivery_attempts [] = 0) as Hnil by done.
    destruct (_ && _); rewrite ?Hx, ?Hnil; lia.
  - destruct (_saved (w_state w)) eqn:Hs.
    { rewrite save_call_data_noop by auto. eexists; split; [done|]. by rewrite Hs. }
    destruct (decide (turns (w_state w) = [])) as [Ht|Ht].
    { rewrite save_call_data_noop by auto. eexists; split; [done|]. by rewrite Hs. }
    rewrite save_call_data_delivers by done. eexists; split; [done|].
    cbn [w_state w_trace _saved set_saved]. rewrite delivery_attempts_app.
    assert (∀ e p, delivery_attempts [HttpPost e p] = 1) as -> by done. lia.
Qed.

Lemma run_ops_guarded (ops : list Op) (w : World) :
  guarded w → ∃ w', run_ops ops w = (inr (), w') ∧ guarded w'.
Proof.
  revert w. induction ops as [|op ops IH]; intros w Hw; cbn [run_ops].
  - by exists w.
  - unfold mbind, M_bind. destruct (run_op_guarded op w Hw) as (w1 & -> & Hw1).
    by apply IH.
Qed.

(** C3. [save_call_data] does nothing, neither a delivery attempt nor a
    change of the state, when the save guard is set or there is no turn.
    Otherwise it sets the guard and makes exactly one delivery attempt,
    with the payload of the state; the guard is set whatever the outcome
    of the attempt, a raised exception included, and nothing raises past
    the function. A second invocation is a no-op whatever the first one
    did. Over any sequence of operations on a call state, at most one
    delivery attempt is made. *)
Theorem save_call_data_delivers_at_most_once :
  (∀ w, _saved (w_state w) = true ∨ turns (w_state w) = [] →
        save_call_data w = (inr (), w))
  ∧ (∀ w, _saved (w_state w) = false → turns (w_state w) ≠ [] →
        save_call_data w =
          (inr (),
           mkWorld (set_saved true (w_state w))
             (w_trace w ++
              [HttpPost
                 (default "http://localhost:3000" NEXTJS_API_URL +:+
                  "/api/call-complete")
                 (to_payload (set_saved true (w_state w)))])))
  ∧ (∀ w, let w1 := (save_call_data w).2 in
          save_call_data w1 = (inr (), w1))
  ∧ (∀ w, let w2 := ((save_call_data;; save_call_data) w).2 in
          delivery_attempts (w_trace w2) ≤ delivery_attempts (w_trace w) + 1)
  ∧ (∀ ops st,
       (run (run_ops ops) st).1 = inr ()
       ∧ delivery_attempts (w_trace (run (run_ops ops) st).2) ≤ 1).
Proof.
  assert (∀ w, let w1 := (save_call_data w).2 in
               save_call_data w1 = (inr (), w1)) as Hsecond.
  { intros w w1. subst w1. destruct (_saved (w_state w)) eqn:Hs.
    { rewrite (save_call_data_noop w) by auto. apply save_call_data_noop; auto. }
    destruct (decide (turns (w_state w) = [])) as [Ht|Ht].
    { rewrite (save_call_data_noop w) by auto. apply save_call_data_noop; auto. }
    rewrite (save_call_data_delivers w) by done.
    apply save_call_data_noop. by left. }
  split; [apply save_call_data_noop|]. split; [apply save_call_data_delivers|].
  split; [done|]. split.
  - intros w. unfold mbind, M_bind.
    pose proof (Hsecond w) as H2. cbn zeta in H2.
    destruct (_saved (w_state w)) eqn:Hs.
    { rewrite (save_call_data_noop w) by auto.
      rewrite (save_call_data_noop w) by auto. cbn. lia. }
    destruct (decide (turns (w_state w) = [])) as [Ht|Ht].
    { rewrite (save_call_data_noop w) by auto.
      rewrite (save_call_data_noop w) by auto. cbn. lia. }
    rewrite (save_call_data_delivers w) in * by done. cbn [snd] in H2.
    rewrite H2. cbn [snd w_trace]. rewrite delivery_attempts_app.
    assert (∀ e p, delivery_attempts [HttpPost e p] = 1) as -> by done. lia.
  - intros ops st. unfold run.
    destruct (run_ops_guarded ops (mkWorld st [])) as (w' & -> & Hw').
    { unfold guarded. cbn. lia. }
    split; [done|]. unfold guarded in Hw'. cbn [snd].
    destruct (_saved (w_state w')); lia.
Qed.


(** ** Turn numbering *)

Lemma backfill_step_spoken (acc : nat * list Turn) (msg : Message) :
  backfill_step acc msg =
    match spoken msg with
    | Some rc => (S acc.1, acc.2 ++ [mkTurn rc.1 rc.2 (S acc.1) None])
    | None => acc
    end.
Proof.
  unfold backfill_step, spoken, nonempty.
  destruct (bool_decide (msg_content msg = "")); cbn [negb orb]; [done|].
  destruct (decide (msg_role msg = "system")) as [Hs|Hs].
  { by rewrite bool_decide_eq_true_2. }
  rewrite bool_decide_eq_false_2 by done.
  destruct (decide (msg_role msg = "user")); [done|].
  by destruct (decide (msg_role msg = "assistant")).
Qed.

Lemma backfill_fold (messages : list Message) (n : nat) (ts : list Turn) :
  foldl backfill_step (n, ts) messages =
    (n + length (omap spoken messages),
     ts ++ numbered (S n) (omap spoken messages)).
Proof.
  revert n ts. induction messages as [|msg messages IH]; intros n ts.
  - cbn. by rewrite Nat.add_0_r, List.app_nil_r.
  - cbn [foldl omap list_omap]. rewrite backfill_step_spoken. cbn [fst snd].
    destruct (spoken msg) as [rc|]; [|apply IH].
    rewrite IH. unfold numbered. cbn [length imap]. f_equal; [lia|].
    rewrite <- (assoc_L (++)). f_equal. cbn [app]. f_equal.
    + by rewrite Nat.add_0_r.
    + apply imap_ext. intros i x _. cbn. f_equal. lia.
Qed.

Lemma numbered_numbers (first : nat) (l : list (string * string)) :
  turnNumber <$> numbered first l = seq first (length l).
Proof.
  revert first. induction l as [|rc l IH]; intros first; [done|].
  unfold numbered. cbn [imap fmap list_fmap length seq turnNumber].
  rewrite Nat.add_0_r. f_equal.
  rewrite <- IH. unfold numbered. f_equal. apply imap_ext.
  intros i x _. cbn. f_equal. lia.
Qed.

Lemma length_numbered (first : nat) (l : list (string * string)) :
  length (numbered first l) = length l.
Proof. unfold numbered. apply length_imap. Qed.

Lemma build_turns_empty (messages : list Message) (st : CallState) :
  turns st = [] →
  turns (build_turns messages st) = numbered 1 (omap spoken messages).
Proof.
  intros Ht. unfold build_turns. rewrite bool_decide_eq_true_2 by done.
  rewrite Ht, backfill_fold. done.
Qed.

Lemma build_turns_nonempty (messages : list Message) (st : CallState) :
  turns st ≠ [] → build_turns messages st = st.
Proof. intros Ht. unfold build_turns. by rewrite bool_decide_eq_false_2. Qed.

Lemma turns_merge_extracted (e : Extracted) (st : CallState) :
  turns (merge_extracted e st) = turns st.
Proof.
  unfold merge_extracted.
  repeat match goal with
         | |- context [if ?b then _ else _] => destruct b
         end; done.
Qed.

Lemma turns_reconcile_intake (st : CallState) :
  turns (reconcile_intake st) = turns st.
Proof.
  unfold reconcile_intake.
  destruct (_ && _); [|done].
  destruct (parsed_answer _ _) as [[|e|b]|]; try done.
  destruct (dict_truthy e); [|done]. apply turns_merge_extracted.
Qed.

Lemma extract_from_context_turns (messages : list Message) (w : World) :
  (extract_from_context messages w).1 = inr ()
  ∧ turns (w_state (extract_from_context messages w).2)
    = turns (build_turns messages (w_state w)).
Proof.
  destruct (extract_from_context_run messages w) as (st' & evs & -> & _ & Hst).
  split; [done|]. cbn [snd w_state].
  destruct Hst as [->|[s ->]]; cbn [turns set_summary];
    apply turns_reconcile_intake.
Qed.

Lemma add_turn_counted (r c : string) (d : option (gmap string string))
    (st : CallState) :
  counted st →
  counted (add_turn r c d st)
  ∧ length (turns (add_turn r c d st)) = S (length (turns st)).
Proof.
  intros [Hn Hc]. unfold counted, add_turn.
  cbn [turns turn_counter set_turns set_turn_counter].
  rewrite fmap_app, !length_app, Hn, Hc. cbn [length fmap list_fmap turnNumber].
  replace (length (turns st) + 1) with (S (length (turns st))) by lia.
  split; [|done]. split; [|done].
  by rewrite seq_S.
Qed.

Lemma turns_handlers (st : CallState) :
  (∀ messages ct,
     turns (handle_classify_call st messages ct).1.1 = turns st
     ∧ turn_counter (handle_classify_call st messages ct).1.1 = turn_counter st)
  ∧ (∀ fields,
       turns (handle_update_intake st fields).1 = turns st
       ∧ turn_counter (handle_update_intake st fields).1 = turn_counter st)
  ∧ (∀ name email address,
       turns (handle_update_caller st name email address).1 = turns st
       ∧ turn_counter (handle_update_caller st name email address).1
         = turn_counter st)
  ∧ (∀ s, turns (handle_complete_intake st s).1 = turns st
          ∧ turn_counter (handle_complete_intake st s).1 = turn_counter st).
Proof.
  repeat split; try done.
  - unfold handle_classify_call. destruct (decide _); [done|]. by destruct messages.
  - unfold handle_classify_call. destruct (decide _); [done|]. by destruct messages.
  - unfold handle_update_caller.
    by destruct (truthy name), (truthy email), (truthy address).
  - unfold handle_update_caller.
    by destruct (truthy name), (truthy email), (truthy address).
Qed.

Lemma save_call_data_turns (w : World) :
  ∃ w', save_call_data w = (inr (), w')
        ∧ turns (w_state w') = turns (w_state w)
        ∧ turn_counter (w_state w') = turn_counter (w_state w).
Proof.
  destruct (_saved (w_state w)) eqn:Hs.
  { rewrite save_call_data_noop by auto. by eexists. }
  destruct (decide (turns (w_state w) = [])) as [Ht|Ht].
  { rewrite save_call_data_noop by auto. by eexists. }
  rewrite save_call_data_delivers by done. by eexists.
Qed.

Lemma run_op_live (op : Op) (w : World) :
  is_extract op = false → counted (w_state w) →
  ∃ w', run_op op w = (inr (), w') ∧ counted (w_state w').
Proof.
  intros Hop [Hn Hc].
  destruct (turns_handlers (w_state w)) as (Hcl & Hi & Hu & Hk).
  destruct op; try done; cbn [run_op]; unfold modify_state.
  - eexists; split; [done|]. cbn [w_state]. unfold counted.
    destruct (Hcl messages args_call_type) as [-> ->]. done.
  - eexists; split; [done|]. cbn [w_state]. unfold counted.
    destruct (Hi args_fields) as [-> ->]. done.
  - eexists; split; [done|]. cbn [w_state]. unfold counted.
    destruct (Hu name email address) as [-> ->]. done.
  - eexists; split; [done|]. cbn [w_state]. unfold counted.
    destruct (Hk args_summary) as [-> ->]. done.
  - eexists; split; [done|]. cbn [w_state]. by apply add_turn_counted.
  - destruct (save_call_data_turns w) as (w' & -> & Ht & Hk').
    eexists; split; [done|]. unfold counted. by rewrite Ht, Hk'.
Qed.

Lemma run_op_post (op : Op) (w : World) :
  is_add_turn op = false → sequential (w_state w) →
  ∃ w', run_op op w = (inr (), w') ∧ sequential (w_state w').
Proof.
  unfold sequential. intros Hop Hn.
  destruct (turns_handlers (w_state w)) as (Hcl & Hi & Hu & Hk).
  destruct op; try done; cbn [run_op]; unfold modify_state.
  - eexists; split; [done|]. cbn [w_state].
    by destruct (Hcl messages args_call_type) as [-> _].
  - eexists; split; [done|]. cbn [w_state].
    by destruct (Hi args_fields) as [-> _].
  - eexists; split; [done|]. cbn [w_state].
    by destruct (Hu name email address) as [-> _].
  - eexists; split; [done|]. cbn [w_state].
    by destruct (Hk args_summary) as [-> _].
  - destruct (extract_from_context_turns messages w) as [Hr Ht].
    exists (extract_from_context messages w).2. split.
    { rewrite <- Hr. by destruct (extract_from_context messages w). }
    rewrite Ht. destruct (decide (turns (w_state w) = [])) as [He|He].
    + rewrite build_turns_empty by done.
      by rewrite numbered_numbers, length_numbered.
    + by rewrite build_turns_nonempty.
  - destruct (save_call_data_turns w) as (w' & -> & Ht & _).
    eexists; split; [done|]. by rewrite Ht.
Qed.

Lemma run_ops_live (ops : list Op) (w : World) :
  forallb (λ op, negb (is_extract op)) ops = true → counted (w_state w) →
  ∃ w', run_ops ops w = (inr (), w') ∧ counted (w_state w').
Proof.
  revert w. induction ops as [|op ops IH]; intros w Hops Hw; cbn [run_ops].
  - by exists w.
  - cbn [forallb] in Hops. apply andb_true_iff in Hops as [Hop Hops].
    apply negb_true_iff in Hop.
    unfold mbind, M_bind. destruct (run_op_live op w Hop Hw) as (w1 & -> & Hw1).
    by apply IH.
Qed.

Lemma run_ops_post (ops : list Op) (w : World) :
  forallb (λ op, negb (is_add_turn op)) ops = true → sequential (w_state w) →
  ∃ w', run_ops ops w = (inr (), w') ∧ sequential (w_state w').
Proof.
  revert w. induction ops as [|op ops IH]; intros w Hops Hw; cbn [run_ops].
  - by exists w.
  - cbn [forallb] in Hops. apply andb_true_iff in Hops as [Hop Hops].
    apply negb_true_iff in Hop.
    unfold mbind, M_bind. destruct (run_op_post op w Hop Hw) as (w1 & -> & Hw1).
    by apply IH.
Qed.

Lemma run_ops_app (ops1 ops2 : list Op) (w w1 : World) :
  run_ops ops1 w = (inr (), w1) →
  run_ops (ops1 ++ ops2) w = run_ops ops2 w1.
Proof.
  revert w. induction ops1 as [|op ops1 IH]; intros w; cbn [run_ops app].
  - by intros [= ->].
  - unfold mbind, M_bind. destruct (run_op op w) as [[e|[]] w'].
    + intros. done.
    + apply IH.
Qed.

Lemma add_turns_counted
    (l : list (string * string * option (gmap string string))) (st : CallState) :
  counted st →
  let st' := foldl (λ st x, add_turn x.1.1 x.1.2 x.2 st) st l in
  counted st'
  ∧ (λ t, (role t, content t)) <$> turns st'
    = ((λ t, (role t, content t)) <$> turns st) ++ ((λ x, (x.1.1, x.1.2)) <$> l).
Proof.
  revert st. induction l as [|[[r c] d] l IH]; intros st Hst; cbn [foldl].
  - split; [done|]. cbn. by rewrite List.app_nil_r.
  - destruct (add_turn_counted r c d st Hst) as [Hst' _].
    destruct (IH _ Hst') as [Hc Hr]. cbn [fst snd]. split; [done|].
    rewrite Hr. unfold add_turn. cbn [turns set_turns set_turn_counter].
    rewrite fmap_app, <- (assoc_L (++)). done.
Qed.

(** C8. The turn numbers of a call state are 1, 2, ... in the order of
    the turns, without gap or repetition: when the turns are appended by
    [add_turn] to a new call state, in which case they also keep the order
    and the roles and contents they were given; when they are rebuilt by
    the turn backfill of [extract_from_context] from any message history,
    in which case they are the messages with a content and the role
    [user] or [assistant], in order, as [caller] and [agent] turns (system
    messages and messages of other roles are skipped); and the backfill
    leaves existing turns as they are. The numbering also holds after any
    sequence of operations that appends live turns before the first
    reconciliation and none afterwards. *)
Theorem turn_numbers_count_up_from_one :
  (∀ sid number dir ct name
     (l : list (string * string * option (gmap string string))),
     let st := foldl (λ st x, add_turn x.1.1 x.1.2 x.2 st)
                 (CallState_init sid number dir ct name) l in
     turnNumber <$> turns st = seq 1 (length l)
     ∧ (λ t, (role t, content t)) <$> turns st = (λ x, (x.1.1, x.1.2)) <$> l)
  ∧ (∀ messages w, turns (w_state w) = [] →
       let st' := w_state (extract_from_context messages w).2 in
       turns st' = numbered 1 (omap spoken messages)
       ∧ turnNumber <$> turns st' = seq 1 (length (turns st')))
  ∧ (∀ messages w, turns (w_state w) ≠ [] →
       turns (w_state (extract_from_context messages w).2) = turns (w_state w))
  ∧ (∀ live post sid number dir ct name,
       forallb (λ op, negb (is_extract op)) live = true →
       forallb (λ op, negb (is_add_turn op)) post = true →
       let st' := w_state (run (run_ops (live ++ post))
                             (CallState_init sid number dir ct name)).2 in
       turnNumber <$> turns st' = seq 1 (length (turns st'))).
Proof.
  split; [|split; [|split]].
  - intros sid number dir ct name l st.
    destruct (add_turns_counted l (CallState_init sid number dir ct name))
      as [[Hn Hc] Hr]; [done|]. fold st in Hn, Hc, Hr.
    split; [|done]. rewrite Hn. f_equal.
    apply (f_equal length) in Hr.
    rewrite length_fmap, length_app, !length_fmap in Hr. exact Hr.
  - intros messages w Ht st'. subst st'.
    destruct (extract_from_context_turns messages w) as [_ ->].
    rewrite build_turns_empty by done.
    by rewrite numbered_numbers, length_numbered.
  - intros messages w Ht.
    destruct (extract_from_context_turns messages w) as [_ ->].
    by rewrite build_turns_nonempty.
  - intros live post sid number dir ct name Hlive Hpost st'. subst st'. unfold run.
    destruct (run_ops_live live (mkWorld (CallState_init sid number dir ct name) []))
      as (w1 & Hr1 & [Hw1 _]); [done|done|].
    rewrite (run_ops_app _ _ _ _ Hr1).
    destruct (run_ops_post post w1 Hpost Hw1) as (w2 & -> & Hw2). done.
Qed.


Lemma turn_counter_reconcile_intake (st : CallState) :
  turn_counter (reconcile_intake st) = turn_counter st.
Proof.
  unfold reconcile_intake.
  destruct (_ && _); [|done].
  destruct (parsed_answer _ _) as [[|e|b]|]; try done.
  destruct (dict_truthy e); [|done]. unfold merge_extracted.
  repeat match goal with
         | |- context [if ?b then _ else _] => destruct b
         end; done.
Qed.

(** X1. Reconciliation does not advance the turn counter: the turn backfill
    numbers the turns it builds with a counter of its own, and
    [extract_from_context] leaves [turn_counter] as it found it. *)
Theorem extract_from_context_keeps_turn_counter
    (messages : list Message) (w : World) :
  turn_counter (w_state (extract_from_context messages w).2)
  = turn_counter (w_state w).
Proof.
  destruct (extract_from_context_run messages w) as (st' & evs & -> & _ & Hst).
  cbn [snd w_state].
  assert (turn_counter (build_turns messages (w_state w)) = turn_counter (w_state w))
    as Hb by (unfold build_turns; by destruct (bool_decide _)).
  destruct Hst as [->|[s ->]]; cbn [turn_counter set_summary];
    by rewrite turn_counter_reconcile_intake.
Qed.

(** ** Intake backfill *)

(** The gate of the intake backfill on the intake data: the mapping is
    empty or each of its values is the empty string. *)
Lemma intake_blank_spec (d : gmap string string) :
  intake_blank d = true ↔ (d = ∅ ∨ ∀ k v, d !! k = Some v → v = "").
Proof.
  unfold intake_blank. rewrite orb_true_iff, bool_decide_eq_true.
  rewrite forallb_forall. split.
  - intros [?|Hall]; [by left|]. right. intros k v Hkv.
    apply elem_of_map_to_list, list_elem_of_In in Hkv.
    apply Hall in Hkv. by apply bool_decide_eq_true in Hkv.
  - intros [?|Hall]; [by left|]. right. intros [k v] Hkv.
    apply list_elem_of_In, elem_of_map_to_list in Hkv.
    apply bool_decide_eq_true. by apply (Hall k v).
Qed.

(** The transcript of a call with at least one turn does not strip to
    the empty string: it starts with [Agent] or [Caller]. *)
Lemma transcript_nonempty (ts : list Turn) :
  nonempty (strip (transcript_of ts)) = true ↔ ts ≠ [].
Proof.
  rewrite nonempty_true. destruct ts as [|t ts]; [done|].
  split; [done|]. intros _.
  assert (∃ c rest, transcript_of (t :: ts) = String c rest
                    ∧ nat_of_ascii c < 128 ∧ space1 c = false)
    as (c & rest & -> & Hlt & Hc).
  { unfold transcript_of. cbn [fmap list_fmap].
    destruct (transcript_line <$> ts); cbn [join]; unfold transcript_line;
      destruct (decide (role t = "agent")); eexists _, _;
      (split; [reflexivity|split; [vm_compute; lia|reflexivity]]). }
  by apply strip_nonempty.
Qed.

Lemma extraction_request_not_summary (t1 c1 t2 : string) :
  extraction_request t1 c1 ≠ summary_request t2.
Proof.
  unfold extraction_request, summary_request, extraction_messages,
    summary_messages, extraction_prompt. cbn [join].
  by intros [=].
Qed.

Lemma build_turns_frame (messages : list Message) (st : CallState) :
  intake_data (build_turns messages st) = intake_data st
  ∧ call_type (build_turns messages st) = call_type st
  ∧ caller_name (build_turns messages st) = caller_name st
  ∧ caller_email (build_turns messages st) = caller_email st
  ∧ caller_address (build_turns messages st) = caller_address st.
Proof. unfold build_turns. by destruct (bool_decide _). Qed.

Lemma merge_extracted_fields (e : Extracted) (st : CallState) :
  intake_data (merge_extracted e st) = default ∅ (ex_fields e)
  ∧ caller_name (merge_extracted e st)
    = (if entry_truthy (ex_callerName e) then entry_value (ex_callerName e)
       else caller_name st)
  ∧ caller_email (merge_extracted e st)
    = (if entry_truthy (ex_callerEmail e) then entry_value (ex_callerEmail e)
       else caller_email st)
  ∧ caller_address (merge_extracted e st)
    = (if entry_truthy (ex_callerAddress e) then entry_value (ex_callerAddress e)
       else caller_address st).
Proof.
  unfold merge_extracted.
  destruct (entry_truthy (ex_callerName e)), (entry_truthy (ex_callerEmail e)),
    (entry_truthy (ex_callerAddress e));
    cbn [call_type set_caller_name set_caller_email set_caller_address
         set_summary set_intake_data];
    destruct (negb (truthy (call_type st)) || bool_decide (call_type st = Some "unknown"));
    done.
Qed.

(** What [extract_from_context] leaves in the fields that the summary step
    does not touch is what [reconcile_intake] left there. *)
Lemma extract_from_context_fields (messages : list Message) (w : World) :
  let st' := w_state (extract_from_context messages w).2 in
  let st2 := reconcile_intake (build_turns messages (w_state w)) in
  intake_data st' = intake_data st2
  ∧ caller_name st' = caller_name st2
  ∧ caller_email st' = caller_email st2
  ∧ caller_address st' = caller_address st2.
Proof.
  destruct (extract_from_context_run messages w) as (st' & evs & -> & _ & Hst).
  cbn [snd w_state]. by destruct Hst as [->|[s ->]].
Qed.

Lemma reconcile_intake_cases (st1 : CallState) :
  let transcript := transcript_of (turns st1) in
  let gate := intake_blank (intake_data st1) && nonempty (strip transcript) in
  let answer := parsed_answer transcript (call_type_or_unknown (call_type st1)) in
  (gate = false → reconcile_intake st1 = st1)
  ∧ (gate = true → answer = None → reconcile_intake st1 = st1)
  ∧ (∀ e, gate = true → answer = Some (PyDict e) → dict_truthy e = true →
          reconcile_intake st1 = merge_extracted e st1).
Proof.
  intros transcript gate answer. unfold reconcile_intake.
  fold transcript. fold gate. fold answer.
  repeat split.
  - by intros ->.
  - by intros -> ->.
  - by intros e -> -> ->.
Qed.

(** C4. During reconciliation, post-call extraction is invoked, once,
    exactly when the intake data is empty or holds only empty strings and
    the transcript of the turns (after the turn backfill) is not blank,
    which it is exactly when there is a turn. When the extraction
    succeeds with a dictionary, its [fields] mapping (the empty mapping
    when the key is missing) becomes the intake data as a whole: nothing
    of the previous mapping is kept. When the extraction is not invoked or
    fails, the intake data is left as it was. *)
Theorem intake_backfill_gate_and_replacement
    (messages : list Message) (st : CallState) :
  let st1 := build_turns messages st in
  let transcript := transcript_of (turns st1) in
  let ct := call_type_or_unknown (call_type st) in
  let gate := intake_blank (intake_data st) && nonempty (strip transcript) in
  let w' := (run (extract_from_context messages) st).2 in
  (gate = true ↔
     (intake_data st = ∅ ∨ ∀ k v, intake_data st !! k = Some v → v = "")
     ∧ turns st1 ≠ [])
  ∧ (∃ evs,
       w_trace w' = (if gate then [extraction_request transcript ct] else []) ++ evs
       ∧ (evs = [] ∨ ∃ t, evs = [summary_request t]))
  ∧ ((∃ t c, extraction_request t c ∈ w_trace w') ↔ gate = true)
  ∧ (∀ e, gate = true →
          parsed_answer transcript ct = Some (PyDict e) →
          dict_truthy e = true →
          intake_data (w_state w') = default ∅ (ex_fields e))
  ∧ (gate = true → parsed_answer transcript ct = None →
       intake_data (w_state w') = intake_data st)
  ∧ (gate = false → intake_data (w_state w') = intake_data st).
Proof.
  intros st1 transcript ct gate w'.
  destruct (build_turns_frame messages st) as (Hd & Hct & _).
  destruct (extract_from_context_run messages (mkWorld st []))
    as (st' & evs & Hrun & Hevs & _).
  destruct (extract_from_context_fields messages (mkWorld st [])) as (Hi & _).
  destruct (reconcile_intake_cases (build_turns messages st)) as (Hoff & Hfail & Hok).
  cbn [w_state w_trace] in Hrun, Hi.
  rewrite Hd in Hrun, Hoff, Hfail, Hok. rewrite Hct in Hrun, Hfail, Hok.
  change (extract_from_context messages (mkWorld st [])) with
    (run (extract_from_context messages) st) in Hrun, Hi.
  fold st1 transcript ct gate w' in Hrun, Hi, Hoff, Hfail, Hok.
  assert (w_trace w' =
            (if gate then [extraction_request transcript ct] else []) ++ evs)
    as Htrace by (unfold w'; by rewrite Hrun).
  split; [|split; [by exists evs|split; [|split; [|split]]]].
  - unfold gate, transcript.
    rewrite andb_true_iff, intake_blank_spec, transcript_nonempty. done.
  - rewrite Htrace. split.
    + intros (t & c & Hin). destruct gate; [done|].
      cbn [app] in Hin. destruct Hevs as [->|[t' ->]].
      * by apply elem_of_nil in Hin.
      * apply list_elem_of_singleton in Hin.
        by apply extraction_request_not_summary in Hin.
    + intros ->. exists transcript, ct. apply list_elem_of_here.
  - intros e Hg Ha He. rewrite Hi, (Hok e Hg Ha He).
    apply merge_extracted_fields.
  - intros Hg Ha. by rewrite Hi, (Hfail Hg Ha).
  - intros Hg. by rewrite Hi, (Hoff Hg).
Qed.

Lemma truthy_entry_value (e : JEntry) :
  entry_truthy e = true → truthy (entry_value e) = true.
Proof. by destruct e. Qed.

(** C2, as the code has it. When post-call extraction succeeds with a
    dictionary, the caller name, email and address each take the extracted
    value whenever that value is a non-empty string, also when a value was
    already stored, and keep the stored value when the extracted one is
    missing, null or empty. So the extraction never clears a stored
    value, but does replace it. *)
Theorem extraction_overwrites_contact_with_nonempty_values
    (messages : list Message) (st : CallState) (e : Extracted) :
  let st1 := build_turns messages st in
  let transcript := transcript_of (turns st1) in
  intake_blank (intake_data st) = true →
  turns st1 ≠ [] →
  parsed_answer transcript (call_type_or_unknown (call_type st)) = Some (PyDict e) →
  dict_truthy e = true →
  let st' := w_state (run (extract_from_context messages) st).2 in
  caller_name st'
    = (if entry_truthy (ex_callerName e) then entry_value (ex_callerName e)
       else caller_name st)
  ∧ caller_email st'
    = (if entry_truthy (ex_callerEmail e) then entry_value (ex_callerEmail e)
       else caller_email st)
  ∧ caller_address st'
    = (if entry_truthy (ex_callerAddress e) then entry_value (ex_callerAddress e)
       else caller_address st)
  ∧ truthy (caller_name st')
    = entry_truthy (ex_callerName e) || truthy (caller_name st)
  ∧ truthy (caller_email st')
    = entry_truthy (ex_callerEmail e) || truthy (caller_email st)
  ∧ truthy (caller_address st')
    = entry_truthy (ex_callerAddress e) || truthy (caller_address st).
Proof.
  intros st1 transcript Hblank Hturns Hanswer He st'.
  destruct (build_turns_frame messages st) as (Hd & Hct & Hn & Hm & Ha).
  destruct (extract_from_context_fields messages (mkWorld st []))
    as (_ & Hn' & Hm' & Ha').
  destruct (reconcile_intake_cases (build_turns messages st)) as (_ & _ & Hok).
  cbn [w_state] in Hn', Hm', Ha'.
  change (extract_from_context messages (mkWorld st [])) with
    (run (extract_from_context messages) st) in Hn', Hm', Ha'.
  rewrite Hd in Hok. rewrite Hct in Hok. fold st1 transcript st' in Hn', Hm', Ha', Hok.
  assert (reconcile_intake st1 = merge_extracted e st1) as Hrec.
  { apply Hok; [|done|done]. rewrite Hblank. by apply transcript_nonempty. }
  rewrite Hrec in Hn', Hm', Ha'.
  destruct (merge_extracted_fields e (build_turns messages st))
    as (_ & Hn2 & Hm2 & Ha2).
  rewrite Hn in Hn2. rewrite Hm in Hm2. rewrite Ha in Ha2.
  fold st1 in Hn2, Hm2, Ha2. rewrite Hn2 in Hn'. rewrite Hm2 in Hm'.
  rewrite Ha2 in Ha'.
  rewrite Hn', Hm', Ha'. do 3 (split; [done|]). repeat split.
  - destruct (entry_truthy (ex_callerName e)) eqn:Ht; [|done].
    by rewrite truthy_entry_value.
  - destruct (entry_truthy (ex_callerEmail e)) eqn:Ht; [|done].
    by rewrite truthy_entry_value.
  - destruct (entry_truthy (ex_callerAddress e)) eqn:Ht; [|done].
    by rewrite truthy_entry_value.
Qed.


(** ** Composition of the handlers *)

Lemma seed_fields_idempotent (fields : list Field) (d : gmap string string) :
  foldl seed_field (foldl seed_field d fields) fields = foldl seed_field d fields.
Proof.
  apply map_eq. intros k. rewrite !seed_fields_lookup.
  destruct (d !! k); [done|]. by destruct (decide (k ∈ key <$> fields)).
Qed.

(** X2. Classifying a call twice with the same type is the same as
    classifying it once: the second call leaves the state, the context
    messages and the returned directive as the first one made them, so no
    collected value is cleared and the seeded keys are not duplicated. A
    classification changes no context message but the first. *)
Theorem classify_call_is_idempotent
    (st : CallState) (messages : list Message) (ct : option string) :
  let r := handle_classify_call st messages ct in
  handle_classify_call r.1.1 r.1.2 ct = r
  ∧ length r.1.2 = length messages
  ∧ drop 1 r.1.2 = drop 1 messages.
Proof.
  unfold handle_classify_call.
  destruct (decide (default "general" ct = "emergency")) as [He|He].
  { cbn [fst snd]. by destruct st. }
  destruct messages as [|m messages]; cbn [fst snd].
  - cbn [intake_data set_intake_data set_call_type].
    rewrite seed_fields_idempotent. by destruct st.
  - cbn [intake_data set_intake_data set_call_type direction caller_name].
    rewrite seed_fields_idempotent. by destruct st.
Qed.

Lemma store_items_idempotent (fields : gmap string string) (d : gmap string string) :
  foldl store_item (foldl store_item d (map_to_list fields)) (map_to_list fields)
  = foldl store_item d (map_to_list fields).
Proof.
  apply map_eq. intros k.
  rewrite (store_items_lookup _ (foldl store_item d (map_to_list fields)))
    by apply NoDup_fst_map_to_list.
  rewrite list_to_map_to_list.
  rewrite (store_items_lookup _ d) by apply NoDup_fst_map_to_list.
  rewrite list_to_map_to_list.
  destruct (fields !! k) as [v|]; [|done]. by destruct (nonempty v).
Qed.

(** X3. Submitting the same mapping to [update_intake_fields] twice is the
    same as submitting it once: the second call changes no stored value and
    returns the same status string. *)
Theorem update_intake_fields_is_idempotent
    (st : CallState) (args_fields : option (gmap string string)) :
  handle_update_intake (handle_update_intake st args_fields).1 args_fields
  = handle_update_intake st args_fields.
Proof.
  unfold handle_update_intake.
  cbn [fst intake_data call_type set_intake_data].
  rewrite store_items_idempotent. by destruct st.
Qed.

(** ** What a call state never loses *)

Lemma retained_refl (st : CallState) : retained st st.
Proof. by repeat split. Qed.

Lemma retained_trans (st1 st2 st3 : CallState) :
  retained st1 st2 → retained st2 st3 → retained st1 st3.
Proof.
  intros (Hi & Hn & He & Ha & Hc & Hs) (Hi' & Hn' & He' & Ha' & Hc' & Hs').
  repeat split; auto.
Qed.

Lemma truthy_not_blank (d : gmap string string) (k : string) :
  truthy (d !! k) = true → intake_blank d = false.
Proof.
  intros Hk. apply not_true_is_false. intros Hb.
  apply intake_blank_spec in Hb as [->|Hall].
  - by rewrite lookup_empty in Hk.
  - destruct (d !! k) as [v|] eqn:Hv; [|done].
    apply Hall in Hv as ->. done.
Qed.

Lemma retained_set_summary (s : option string) (st : CallState) :
  retained st (set_summary s st).
Proof. by repeat split. Qed.

Lemma retained_merge_extracted (e : Extracted) (st : CallState) :
  intake_blank (intake_data st) = true → retained st (merge_extracted e st).
Proof.
  intros Hb. destruct (merge_extracted_fields e st) as (_ & Hn & Hm & Ha).
  split; [|split; [|split; [|split; [|split]]]].
  - intros k Hk. apply truthy_not_blank in Hk. congruence.
  - rewrite Hn. destruct (entry_truthy (ex_callerName e)) eqn:Ht; [|done].
    intros _. by apply truthy_entry_value.
  - rewrite Hm. destruct (entry_truthy (ex_callerEmail e)) eqn:Ht; [|done].
    intros _. by apply truthy_entry_value.
  - rewrite Ha. destruct (entry_truthy (ex_callerAddress e)) eqn:Ht; [|done].
    intros _. by apply truthy_entry_value.
  - unfold merge_extracted.
    repeat match goal with
           | |- context [if ?b then _ else _] => destruct b
           end; done.
  - by rewrite saved_merge_extracted.
Qed.

Lemma retained_reconcile_intake (st : CallState) :
  retained st (reconcile_intake st).
Proof.
  unfold reconcile_intake.
  destruct (intake_blank (intake_data st)) eqn:Hb; cbn [andb];
    [|apply retained_refl].
  destruct (nonempty _); [|apply retained_refl].
  destruct (parsed_answer _ _) as [[|e|b]|]; try apply retained_refl.
  destruct (dict_truthy e); [|apply retained_refl].
  by apply retained_merge_extracted.
Qed.

Lemma retained_build_turns (messages : list Message) (st : CallState) :
  retained st (build_turns messages st).
Proof. unfold build_turns. destruct (bool_decide _); by repeat split. Qed.

Lemma retained_handlers (st : CallState) :
  (∀ messages ct, retained st (handle_classify_call st messages ct).1.1)
  ∧ (∀ fields, retained st (handle_update_intake st fields).1)
  ∧ (∀ name email address,
       retained st (handle_update_caller st name email address).1)
  ∧ (∀ s, retained st (handle_complete_intake st s).1)
  ∧ (∀ r c d, retained st (add_turn r c d st)).
Proof.
  split; [|split; [|split; [|split]]].
  - intros messages ct.
    assert (∀ k, truthy (intake_data st !! k) = true →
                 truthy (intake_data (handle_classify_call st messages ct).1.1 !! k)
                 = true) as Hi.
    { intros k Hk. unfold handle_classify_call.
      destruct (decide _); [done|].
      destruct messages; cbn [fst intake_data set_intake_data set_call_type];
        rewrite seed_fields_lookup; by destruct (intake_data st !! k). }
    split; [done|]. unfold handle_classify_call.
    destruct (decide _); [by repeat split|]. by destruct messages.
  - intros fields. split; [|by repeat split].
    intros k Hk. destruct fields as [fields|].
    + rewrite update_intake_lookup. destruct (fields !! k) as [v|]; [|done].
      by destruct (nonempty v) eqn:Hv.
    + done.
  - intros name email address. unfold handle_update_caller.
    destruct (truthy name) eqn:Hn, (truthy email) eqn:He,
      (truthy address) eqn:Ha; by repeat split.
  - intros s. by repeat split.
  - intros r c d. by repeat split.
Qed.

Lemma run_op_retained (op : Op) (w : World) :
  ∃ w', run_op op w = (inr (), w') ∧ retained (w_state w) (w_state w').
Proof.
  destruct (retained_handlers (w_state w)) as (Hc & Hi & Hu & Hk & Ha).
  destruct op; cbn [run_op]; unfold modify_state;
    try (eexists; split; [done|]; cbn [w_state]; auto; fail).
  - destruct (extract_from_context_run messages w) as (st' & evs & -> & _ & Hst).
    eexists; split; [done|]. cbn [w_state].
    apply (retained_trans _ (build_turns messages (w_state w)));
      [apply retained_build_turns|].
    destruct Hst as [->|[s ->]]; [apply retained_reconcile_intake|].
    eapply retained_trans; [apply retained_reconcile_intake|].
    apply retained_set_summary.
  - destruct (_saved (w_state w)) eqn:Hs.
    { rewrite save_call_data_noop by auto. eexists; split; [done|]. apply retained_refl. }
    destruct (decide (turns (w_state w) = [])) as [Ht|Ht].
    { rewrite save_call_data_noop by auto. eexists; split; [done|]. apply retained_refl. }
    rewrite save_call_data_delivers by done. eexists; split; [done|].
    cbn [w_state]. by repeat split.
Qed.

Lemma is_complete_reconcile_intake (st : CallState) :
  is_complete (reconcile_intake st) = is_complete st.
Proof.
  unfold reconcile_intake.
  destruct (_ && _); [|done].
  destruct (parsed_answer _ _) as [[|e|b]|]; try done.
  destruct (dict_truthy e); [|done]. unfold merge_extracted.
  repeat match goal with
         | |- context [if ?b then _ else _] => destruct b
         end; done.
Qed.

Lemma run_op_is_complete (op : Op) (w : World) :
  is_complete_intake op = false →
  ∃ w', run_op op w = (inr (), w')
        ∧ is_complete (w_state w') = is_complete (w_state w).
Proof.
  intros Hop. destruct op; try done; cbn [run_op]; unfold modify_state.
  - eexists; split; [done|]. cbn [w_state]. unfold handle_classify_call.
    destruct (decide _); [done|]. by destruct messages.
  - by eexists.
  - eexists; split; [done|]. cbn [w_state]. unfold handle_update_caller.
    by destruct (truthy name), (truthy email), (truthy address).
  - by eexists.
  - destruct (extract_from_context_run messages w) as (st' & evs & -> & _ & Hst).
    eexists; split; [done|]. cbn [w_state].
    assert (is_complete (build_turns messages (w_state w)) = is_complete (w_state w))
      as Hb by (unfold build_turns; by destruct (bool_decide _)).
    destruct Hst as [->|[s ->]]; cbn [is_complete set_summary];
      by rewrite is_complete_reconcile_intake.
  - destruct (_saved (w_state w)) eqn:Hs.
    { rewrite save_call_data_noop by auto. by eexists. }
    destruct (decide (turns (w_state w) = [])) as [Ht|Ht].
    { rewrite save_call_data_noop by auto. by eexists. }
    rewrite save_call_data_delivers by done. by eexists.
Qed.

(** X5. [complete_intake] is the only operation that marks a call
    complete, and it does so without any check: it sets [is_complete] and
    stores the summary it is given (the empty string when the argument is
    missing) whether or not any required field was collected, and leaves the
    rest of the state alone. Over any sequence of the other operations,
    reconciliation and persistence included, [is_complete] stays what it
    was. *)
Theorem only_complete_intake_marks_a_call_complete :
  (∀ st s,
     (handle_complete_intake st s).1
     = set_is_complete true (set_summary (Some (default "" s)) st)
     ∧ is_complete (handle_complete_intake st s).1 = true
     ∧ intake_data (handle_complete_intake st s).1 = intake_data st)
  ∧ (∀ ops w,
       forallb (λ op, negb (is_complete_intake op)) ops = true →
       ∃ w', run_ops ops w = (inr (), w')
             ∧ is_complete (w_state w') = is_complete (w_state w)).
Proof.
  split; [done|].
  intros ops. induction ops as [|op ops IH]; intros w Hops; cbn [run_ops].
  - by exists w.
  - cbn [forallb] in Hops. apply andb_true_iff in Hops as [Hop Hops].
    apply negb_true_iff in Hop. unfold mbind, M_bind.
    destruct (run_op_is_complete op w Hop) as (w1 & -> & H1).
    destruct (IH w1 Hops) as (w2 & -> & H2). exists w2. by rewrite H2, H1.
Qed.

(** ** The summary generator and the rest of reconciliation *)

(** What [generate_summary] returns, read off the provider's answer. *)
Lemma generate_summary_exact (transcript : string) (w : World) :
  generate_summary transcript w =
    (inr match chat_completions_create "gpt-4o-mini" (summary_messages transcript) with
         | CompletionContent (Some c) => Some (strip c)
         | _ => None
         end,
     mkWorld (w_state w) (w_trace w ++ [summary_request transcript])).
Proof.
  unfold generate_summary. unfold try_except, mbind, M_bind.
  rewrite request_content_run.
  by destruct (chat_completions_create _ _) as [|[c|]].
Qed.

(** X6. [generate_summary] always returns and never raises: it leaves the
    call state alone, sends one request, and returns [None] when the request
    fails or the answer has no text, and the stripped text of the answer
    otherwise, which is the empty string, not [None], for a blank answer. *)
Theorem generate_summary_never_raises (transcript : string) (w : World) :
  let answer :=
    chat_completions_create "gpt-4o-mini" (summary_messages transcript) in
  let w' := mkWorld (w_state w) (w_trace w ++ [summary_request transcript]) in
  generate_summary transcript w =
    (inr match answer with
         | CompletionContent (Some c) => Some (strip c)
         | _ => None
         end, w')
  ∧ (∀ c, answer = CompletionContent (Some c) → all_space c = true →
          generate_summary transcript w = (inr (Some ""), w')).
Proof.
  intros answer w'. split; [apply generate_summary_exact|].
  intros c Hc Hs. rewrite generate_summary_exact. fold answer. rewrite Hc.
  unfold strip. by rewrite rstrip_space.
Qed.

Lemma backfill_intake_skip (w : World) :
  intake_blank (intake_data (w_state w)) = false →
  backfill_intake w = (inr (), w).
Proof.
  intros Hb. unfold backfill_intake. destruct w as [st tr]. run_monad.
  cbn [w_state] in Hb. by rewrite Hb.
Qed.

Lemma backfill_intake_other (w : World) :
  let st := w_state w in
  let transcript := transcript_of (turns st) in
  let ct := call_type_or_unknown (call_type st) in
  intake_blank (intake_data st) = true →
  nonempty (strip transcript) = true →
  parsed_answer transcript ct = Some (PyOther true) →
  backfill_intake w =
    (inl AttributeError,
     mkWorld st (w_trace w ++ [extraction_request transcript ct])).
Proof.
  intros st transcript ct Hb Hn Ha. subst st transcript ct.
  unfold backfill_intake. destruct w as [st tr]. run_monad.
  cbn [w_state] in Hb, Hn, Ha. rewrite Hb, Hn.
  rewrite post_call_extraction_run, Ha. done.
Qed.

Lemma backfill_summary_exact (w : World) :
  let st := w_state w in
  let transcript := transcript_of (turns st) in
  backfill_summary w =
    if negb (truthy (summary st)) && negb (bool_decide (turns st = []))
    then (inr (),
          mkWorld
            (set_summary
               match chat_completions_create "gpt-4o-mini"
                       (summary_messages transcript) with
               | CompletionContent (Some c) => Some (strip c)
               | _ => None
               end st)
            (w_trace w ++ [summary_request transcript]))
    else (inr (), w).
Proof.
  intros st transcript. subst st transcript.
  unfold backfill_summary. destruct w as [st tr]. run_monad.
  destruct (negb (truthy (summary st)) && negb (bool_decide (turns st = [])));
    [|done].
  by rewrite generate_summary_exact.
Qed.

Lemma not_blank_truthy (d : gmap string string) :
  intake_blank d = false → ∃ k, truthy (d !! k) = true.
Proof.
  unfold intake_blank. intros [_ Hall]%orb_false_iff.
  assert (∃ kv, kv ∈ map_to_list d ∧ kv.2 ≠ "") as ([k v] & Hin & Hv).
  { induction (map_to_list d) as [|kv l IH]; [done|]. cbn [forallb] in Hall.
    apply andb_false_iff in Hall as [Hkv|Hl].
    - exists kv. split; [apply elem_of_cons; by left|].
      by apply bool_decide_eq_false in Hkv.
    - destruct (IH Hl) as (kv' & Hin & Hv). exists kv'.
      split; [apply elem_of_cons; by right|done]. }
  exists k. apply elem_of_map_to_list in Hin. rewrite Hin.
  by apply nonempty_true.
Qed.

Lemma retained_not_blank (st st' : CallState) :
  retained st st' → intake_blank (intake_data st) = false →
  intake_blank (intake_data st') = false.
Proof.
  intros (Hi & _) [k Hk]%not_blank_truthy.
  by apply (truthy_not_blank _ k), Hi.
Qed.

(** With intake data that holds a value, reconciliation leaves a stored
    summary as it is. *)
Lemma extract_from_context_summary (messages : list Message) (w : World) :
  intake_blank (intake_data (w_state w)) = false →
  truthy (summary (w_state w)) = true →
  summary (w_state (extract_from_context messages w).2) = summary (w_state w).
Proof.
  intros Hb Hs.
  assert (summary (build_turns messages (w_state w)) = summary (w_state w)
          ∧ intake_data (build_turns messages (w_state w))
            = intake_data (w_state w)) as [Hs1 Hi1]
    by (unfold build_turns; by destruct (bool_decide _)).
  unfold extract_from_context.
  unfold try_except, mbind, M_bind, modify_state.
  rewrite backfill_intake_skip by (cbn [w_state]; by rewrite Hi1).
  rewrite backfill_summary_exact. cbn [w_state w_trace].
  by rewrite Hs1, Hs.
Qed.

Lemma run_op_summary (op : Op) (w : World) :
  is_complete_intake op = false →
  intake_blank (intake_data (w_state w)) = false →
  truthy (summary (w_state w)) = true →
  summary (w_state (run_op op w).2) = summary (w_state w).
Proof.
  intros Hop Hb Hs. destruct op; try done; cbn [run_op]; unfold modify_state;
    cbn [snd w_state].
  - unfold handle_classify_call. destruct (decide _); [done|]. by destruct messages.
  - unfold handle_update_caller.
    by destruct (truthy name), (truthy email), (truthy address).
  - by apply extract_from_context_summary.
  - destruct (_saved (w_state w)) eqn:Hsv.
    { by rewrite save_call_data_noop by auto. }
    destruct (decide (turns (w_state w) = [])) as [Ht|Ht].
    { by rewrite save_call_data_noop by auto. }
    by rewrite save_call_data_delivers by done.
Qed.

(** X4. Intake values and contact details, once stored, stay stored. Over
    any sequence of operations on a call state (the four handlers,
    [add_turn], reconciliation and persistence, in any order, each taken
    with the changes it makes to the state, also when the handler raises
    after them), an intake key that holds a non-empty value still holds a
    non-empty value at the end, a known caller name, email and address are
    still known, and the completion flag and the save guard, once set, stay
    set: post-call extraction, which replaces the intake data as a whole,
    never runs on intake data that holds a non-empty value.

    The summary is not kept in this way: [complete_intake] assigns it
    whatever is stored, and so does a post-call extraction, which runs when
    all the intake data is blank. What holds of the summary is this: on a
    call whose intake data holds a non-empty value, a stored summary that
    is not empty stays as it is over any sequence of operations without
    [complete_intake]. *)
Theorem intake_and_contact_values_are_kept (ops : list Op) (w : World) :
  let st := w_state w in
  let st' := w_state (run_ops ops w).2 in
  retained st st'
  ∧ (intake_blank (intake_data st) = false →
     truthy (summary st) = true →
     forallb (λ op, negb (is_complete_intake op)) ops = true →
     summary st' = summary st).
Proof.
  cbv zeta. revert w. induction ops as [|op ops IH]; intros w; cbn [run_ops].
  - split; [apply retained_refl|done].
  - unfold mbind, M_bind.
    pose proof (run_op_summary op w) as Hsum.
    destruct (run_op_retained op w) as (w1 & Hrun & H1).
    rewrite Hrun in Hsum |- *. cbn [snd] in Hsum.
    destruct (IH w1) as [H2 H3]. split; [by eapply retained_trans|].
    cbn [forallb]. intros Hb Hs [Hop Hops]%andb_true_iff.
    apply negb_true_iff in Hop.
    rewrite H3; [by apply Hsum| |by rewrite Hsum|done].
    by apply (retained_not_blank (w_state w)).
Qed.

(** X7. On a call whose intake data holds at least one non-empty value,
    reconciliation makes no post-call extraction: it rebuilds the turns
    when there are none, generates a summary when there is none and there
    is a turn, and changes nothing else. With a summary already stored, or
    without any turn, it sends no request at all. *)
Theorem reconciliation_keeps_captured_intake
    (messages : list Message) (st : CallState) :
  intake_blank (intake_data st) = false →
  let st1 := build_turns messages st in
  let transcript := transcript_of (turns st1) in
  let generated :=
    match chat_completions_create "gpt-4o-mini" (summary_messages transcript) with
    | CompletionContent (Some c) => Some (strip c)
    | _ => None
    end in
  run (extract_from_context messages) st =
    (inr (),
     if negb (truthy (summary st)) && negb (bool_decide (turns st1 = []))
     then mkWorld (set_summary generated st1) [summary_request transcript]
     else mkWorld st1 [])
  ∧ intake_data (w_state (run (extract_from_context messages) st).2)
    = intake_data st.
Proof.
  intros Hb st1 transcript generated.
  assert (summary st1 = summary st ∧ intake_data st1 = intake_data st) as [Hs Hi]
    by (unfold st1, build_turns; by destruct (bool_decide _)).
  assert (run (extract_from_context messages) st =
            (inr (),
             if negb (truthy (summary st)) && negb (bool_decide (turns st1 = []))
             then mkWorld (set_summary generated st1) [summary_request transcript]
             else mkWorld st1 [])) as Hrun.
  { unfold run, extract_from_context.
    unfold try_except, mbind, M_bind, modify_state. cbn [w_state w_trace].
    fold st1. rewrite backfill_intake_skip by (cbn [w_state]; by rewrite Hi).
    rewrite backfill_summary_exact. cbn [w_state w_trace]. rewrite Hs.
    fold transcript. fold generated.
    by destruct (negb (truthy (summary st)) && negb (bool_decide (turns st1 = []))). }
  split; [done|]. rewrite Hrun. cbn [snd].
  by destruct (negb (truthy (summary st)) && negb (bool_decide (turns st1 = []))).
Qed.

(** X8. When the provider's answer to the extraction request parses to a
    truthy value that is not a dictionary (a JSON list, string or number),
    the use of that value raises inside [extract_from_context]; the
    exception is caught at the top, the call state keeps what the turn
    backfill built and nothing else changes, and the summary step is
    skipped: no summary is generated even when there is none. *)
Theorem non_dictionary_answer_ends_reconciliation
    (messages : list Message) (st : CallState) :
  let st1 := build_turns messages st in
  let transcript := transcript_of (turns st1) in
  let ct := call_type_or_unknown (call_type st) in
  intake_blank (intake_data st) = true →
  turns st1 ≠ [] →
  parsed_answer transcript ct = Some (PyOther true) →
  run (extract_from_context messages) st =
    (inr (), mkWorld st1 [extraction_request transcript ct]).
Proof.
  intros st1 transcript ct Hb Ht Ha.
  destruct (build_turns_frame messages st) as (Hi & Hct & _).
  unfold run, extract_from_context.
  unfold try_except, mbind, M_bind, modify_state. cbn [w_state w_trace].
  fold st1. rewrite backfill_intake_other; cbn [w_state w_trace].
  - fold transcript. unfold st1 at 2. rewrite Hct. fold ct. done.
  - unfold st1. by rewrite Hi.
  - by apply transcript_nonempty.
  - unfold st1 at 2. rewrite Hct. done.
Qed.

(** ** The end of a call *)

Lemma posted_app (tr evs : list Event) :
  posted (tr ++ evs) = posted tr ++ posted evs.
Proof. apply omap_app. Qed.

Lemma extract_from_context_effects (messages : list Message) (w : World) :
  ∃ st' evs,
    extract_from_context messages w = (inr (), mkWorld st' (w_trace w ++ evs))
    ∧ posted evs = []
    ∧ _saved st' = _saved (w_state w)
    ∧ turns st' = turns (build_turns messages (w_state w)).
Proof.
  destruct (extract_from_context_run messages w) as (st' & evs & Hrun & Hevs & Hst).
  eexists st', _. split; [exact Hrun|]. split; [|split].
  - rewrite posted_app.
    assert (posted evs = []) as -> by (by destruct Hevs as [->|[t ->]]).
    by destruct (_ && _).
  - destruct Hst as [->|[s ->]]; cbn [_saved set_summary];
      by rewrite saved_reconcile_intake, saved_build_turns.
  - destruct Hst as [->|[s ->]]; cbn [turns set_summary];
      by rewrite turns_reconcile_intake.
Qed.

(** X9. [run_bot] reconciles and saves when the client disconnects and
    once more when the pipeline has ended. When the first round finds or
    builds at least one turn, the one delivery carries the payload of the
    state that the first reconciliation left; the second round may still
    change the call state (a second extraction or summary), but delivers
    nothing, so what it adds never reaches the backend. *)
Theorem second_reconciliation_is_not_delivered
    (messages1 messages2 : list Message) (st : CallState) :
  _saved st = false →
  turns (build_turns messages1 st) ≠ [] →
  let first := w_state (run (extract_from_context messages1) st).2 in
  let w' := (run (reconcile_and_save messages1;; reconcile_and_save messages2) st).2 in
  posted (w_trace w') = [to_payload (set_saved true first)]
  ∧ _saved (w_state w') = true.
Proof.
  intros Hs Ht first w'. subst first w'. unfold run, reconcile_and_save.
  unfold mbind, M_bind.
  destruct (extract_from_context_effects messages1 (mkWorld st []))
    as (st1 & evs1 & -> & Hp1 & Hs1 & Ht1).
  cbn [w_state w_trace app snd] in *.
  rewrite save_call_data_delivers; cbn [w_state w_trace]; [|congruence..].
  destruct (extract_from_context_effects messages2
              (mkWorld (set_saved true st1)
                 (evs1 ++
                  [HttpPost
                     (default "http://localhost:3000" NEXTJS_API_URL +:+
                      "/api/call-complete")
                     (to_payload (set_saved true st1))])))
    as (st2 & evs2 & -> & Hp2 & Hs2 & _).
  cbn [w_state w_trace _saved set_saved] in *.
  rewrite save_call_data_noop by (by left).
  cbn [snd w_state w_trace]. rewrite !posted_app, Hp1, Hp2. done.
Qed.

(** ** The prompt builder *)

Lemma startswith_app_l (p a b : string) :
  startswith p a = true → startswith p (a +:+ b) = true.
Proof.
  revert a. induction p as [|c p IH]; intros a; [done|].
  destruct a as [|d a]; [done|]. rewrite str_app_cons. cbn [startswith].
  intros [Hc Hp]%andb_true_iff. rewrite Hc. cbn [andb]. by apply IH.
Qed.

Lemma contains_str_app_l (p a b : string) :
  contains_str p a = true → contains_str p (a +:+ b) = true.
Proof.
  induction a as [|c a IH].
  - destruct p; [by destruct b|done].
  - rewrite str_app_cons. cbn [contains_str].
    intros [Hs|Hc]%orb_true_iff.
    + change (String c (a +:+ b)) with (String c a +:+ b).
      by rewrite (startswith_app_l _ _ _ Hs).
    + rewrite (IH Hc). apply orb_true_r.
Qed.

Lemma contains_str_app_r (p a b : string) :
  contains_str p b = true → contains_str p (a +:+ b) = true.
Proof.
  intros Hb. induction a as [|c a IH]; [done|].
  rewrite str_app_cons. cbn [contains_str]. rewrite IH. apply orb_true_r.
Qed.

Lemma contains_str_self (p : string) : contains_str p p = true.
Proof.
  assert (startswith p p = true) as Hp.
  { induction p as [|c p IH]; [done|]. cbn [startswith].
    by rewrite bool_decide_eq_true_2, IH. }
  destruct p; cbn [contains_str]; by rewrite Hp.
Qed.

Lemma contains_str_join (p sep : string) (l : list string) (x : string) :
  x ∈ l → contains_str p x = true → contains_str p (join sep l) = true.
Proof.
  intros Hx Hp. induction l as [|y l IH]; [by apply elem_of_nil in Hx|].
  apply elem_of_cons in Hx as [->|Hx].
  - destruct l; [done|]. cbn [join]. by apply contains_str_app_l.
  - destruct l as [|z l]; [by apply elem_of_nil in Hx|].
    cbn [join]. apply contains_str_app_r, contains_str_app_r. by apply IH.
Qed.

(** X10. For a call type that has a registry entry, the system prompt
    names every field of the entry, required or optional, on a line of its
    own format [- key: label], whatever the direction of the call and the
    caller name; it also states the call type. So the model is told the key
    of every field it may report through [update_intake_fields]. *)
Theorem system_prompt_lists_every_schema_field
    (direction ct : string) (caller_name : option string)
    (fields : list Field) (f : Field) :
  CALL_TYPE_FIELDS !! ct = Some fields →
  f ∈ fields →
  contains_str ("- " +:+ key f +:+ ": " +:+ label f)
    (build_system_prompt direction (Some ct) caller_name) = true
  ∧ contains_str ("You are conducting a " +:+ ct +:+ " intake call.")
      (build_system_prompt direction (Some ct) caller_name) = true.
Proof.
  intros Hct Hf.
  assert (nonempty ct = true) as Hne.
  { apply nonempty_true. intros ->. by vm_compute in Hct. }
  unfold build_system_prompt. rewrite Hne, Hct.
  split;
    (apply (contains_str_join _ _ _ (fields_section_known ct fields));
     [do 9 apply list_elem_of_further; apply list_elem_of_here|]);
    unfold fields_section_known.
  - set (line := λ f : Field, "- " +:+ key f +:+ ": " +:+ label f).
    destruct (required f) eqn:Hr.
    + apply (contains_str_join _ _ _
               (join nl (line <$> filter (λ f, required f = true) fields))).
      { do 4 apply list_elem_of_further. apply list_elem_of_here. }
      apply (contains_str_join _ _ _ (line f)); [|apply contains_str_self].
      apply list_elem_of_fmap_2. by apply list_elem_of_filter.
    + apply (contains_str_join _ _ _
               (join nl (line <$> filter (λ f, required f = false) fields))).
      { do 7 apply list_elem_of_further. apply list_elem_of_here. }
      apply (contains_str_join _ _ _ (line f)); [|apply contains_str_self].
      apply list_elem_of_fmap_2. by apply list_elem_of_filter.
  - apply (contains_str_join _ _ _
             ("You are conducting a " +:+ ct +:+ " intake call."));
      [|apply contains_str_self].
    apply list_elem_of_further, list_elem_of_here.
Qed.

(** ** Call set-up and the HTTP endpoints *)

Lemma replace_go_skip (old new : string) (u t : string) :
  replace_go old new (String.length u) (u +:+ t) = replace_go old new 0 t.
Proof.
  induction u as [|c u IH]; [done|].
  rewrite str_app_cons. cbn [String.length replace_go]. apply IH.
Qed.

Lemma replace_prefix (old new t : string) :
  old ≠ "" → replace old new (old +:+ t) = new +:+ replace old new t.
Proof.
  intros Hold. destruct old as [|c o]; [done|]. unfold replace.
  rewrite str_app_cons. cbn [replace_go].
  change (String c (o +:+ t)) with (String c o +:+ t) at 1.
  rewrite startswith_app.
  replace (String.length (String c o) - 1) with (String.length o)
    by (cbn [String.length]; lia).
  by rewrite replace_go_skip.
Qed.

Lemma replace_absent (old new s : string) :
  contains_str old s = false → replace old new s = s.
Proof.
  unfold replace. induction s as [|c s IH]; [done|].
  cbn [contains_str replace_go]. intros [Hs Hc]%orb_false_iff.
  rewrite Hs. by rewrite IH.
Qed.

Lemma contains_str_cons_ne (a c : ascii) (p s : string) :
  a ≠ c → contains_str (String a p) (String c s) = contains_str (String a p) s.
Proof. intros Hne. cbn [contains_str startswith]. by rewrite bool_decide_eq_false_2. Qed.

Lemma http_not_in_wss (rest : string) :
  contains_str "http://" ("wss://" +:+ rest) = contains_str "http://" rest.
Proof.
  rewrite !str_app_cons, str_app_empty_l.
  by rewrite !contains_str_cons_ne by done.
Qed.

Lemma contains_str_cons (p : string) (c : ascii) (s : string) :
  contains_str p (String c s) = startswith p (String c s) || contains_str p s.
Proof. done. Qed.

Lemma https_not_in_http (rest : string) :
  contains_str "https://" ("http://" +:+ rest) = contains_str "https://" rest.
Proof.
  rewrite !str_app_cons, str_app_empty_l. rewrite contains_str_cons.
  assert (startswith "https://" (String "h" (String "t" (String "t" (String "p"
            (String ":" (String "/" (String "/" rest))))))) = false) as ->.
  { cbn [startswith]. rewrite !bool_decide_eq_true_2 by done.
    by rewrite bool_decide_eq_false_2 by done. }
  cbn [orb]. by rewrite !contains_str_cons_ne by done.
Qed.

(** X11. [get_ws_url] fails, with the message [LOCAL_SERVER_URL not
    configured], exactly when the variable is unset or empty. Otherwise it
    turns the scheme [https://] into [wss://] and [http://] into [ws://]
    and appends [/ws]; a URL without either scheme is kept as it is, with
    [/ws] appended. *)
Theorem get_ws_url_maps_the_scheme :
  (∀ u, (∃ e, get_ws_url u = inl e) ↔ (u = None ∨ u = Some ""))
  ∧ (∀ u e, get_ws_url u = inl e → e = "LOCAL_SERVER_URL not configured")
  ∧ (∀ rest,
       contains_str "https://" rest = false →
       contains_str "http://" rest = false →
       get_ws_url (Some ("https://" +:+ rest)) = inr ("wss://" +:+ rest +:+ "/ws")
       ∧ get_ws_url (Some ("http://" +:+ rest)) = inr ("ws://" +:+ rest +:+ "/ws"))
  ∧ (∀ u, u ≠ "" →
          contains_str "https://" u = false →
          contains_str "http://" u = false →
          get_ws_url (Some u) = inr (u +:+ "/ws")).
Proof.
  split; [|split; [|split]].
  - intros u. unfold get_ws_url. split.
    + intros [e He]. destruct u as [u|]; [|by left]. right.
      cbn [default from_option id] in He.
      destruct (nonempty u) eqn:Hu; [done|].
      apply negb_false_iff, bool_decide_eq_true in Hu. by rewrite Hu.
    + intros [->| ->]; by eexists.
  - intros u e. unfold get_ws_url. destruct (negb _); [|done]. by intros [= <-].
  - intros rest Hs Hp. unfold get_ws_url. cbn [default from_option id]. split.
    + rewrite replace_prefix by done. rewrite (replace_absent _ _ rest) by done.
      rewrite replace_absent by (by rewrite http_not_in_wss).
      by rewrite !str_app_assoc.
    + rewrite (replace_absent "https://") by (by rewrite https_not_in_http).
      rewrite replace_prefix by done. rewrite (replace_absent _ _ rest) by done.
      by rewrite !str_app_assoc.
  - intros u Hu Hs Hp. unfold get_ws_url. cbn [default from_option id].
    apply nonempty_true in Hu. rewrite Hu. cbn [negb].
    by rewrite (replace_absent "https://"), replace_absent.
Qed.

(** X12. The call state that [bot] builds never has the call type
    [unknown] or the empty string: both are turned into an unset call type.
    A non-empty [call_type] parameter of the media stream takes precedence
    over the keyword argument of [bot], also when it is [unknown], in which
    case the keyword argument is ignored and the call starts unclassified.
    The state is otherwise new: no turn, no intake data, no summary, not
    complete, not saved; a missing call id or caller number is [unknown]. *)
Theorem bot_call_state_is_normalised
    (call_data : CallData) (ct name : option string) (dir : string) :
  let st := bot_call_state call_data ct name dir in
  let body := default ∅ (cd_body call_data) in
  (∀ s, call_type st = Some s → s ≠ "" ∧ s ≠ "unknown")
  ∧ (∀ v, body !! "call_type" = Some v → v ≠ "" →
          call_type st = if decide (v = "unknown") then None else Some v)
  ∧ (truthy (body !! "call_type") = false →
       ∀ s, ct = Some s → s ≠ "" → s ≠ "unknown" → call_type st = Some s)
  ∧ (turns st = [] ∧ intake_data st = ∅ ∧ summary st = None
     ∧ is_complete st = false ∧ turn_counter st = 0 ∧ _saved st = false)
  ∧ (cd_call_id call_data = None → call_sid st = "unknown")
  ∧ (body !! "from_number" = None → caller_number st = "unknown").
Proof.
  intros st body. subst st. unfold bot_call_state. fold body.
  cbn [call_type turns intake_data summary is_complete turn_counter _saved
       call_sid caller_number CallState_init].
  split; [|split; [|split; [|split; [|split]]]].
  - intros s. unfold py_or.
    destruct (truthy (body !! "call_type")) eqn:Hb.
    + rewrite Hb. cbn [andb]. destruct (body !! "call_type") as [v|]; [|done].
      destruct (bool_decide (Some v = Some "unknown")) eqn:Hu; [done|].
      cbn [negb]. intros [= ->]. apply bool_decide_eq_false in Hu.
      split; [by apply nonempty_true|congruence].
    + destruct (truthy ct) eqn:Hc; [|done]. cbn [andb].
      destruct ct as [c|]; [|done].
      destruct (bool_decide (Some c = Some "unknown")) eqn:Hu; [done|].
      cbn [negb]. intros [= ->]. apply bool_decide_eq_false in Hu.
      split; [by apply nonempty_true|congruence].
  - intros v Hv Hne. unfold py_or. rewrite Hv.
    assert (truthy (Some v) = true) as Ht by (by apply nonempty_true).
    rewrite Ht. cbn beta iota. rewrite Ht. cbn [andb].
    destruct (decide (v = "unknown")) as [Hu|Hu].
    + by rewrite bool_decide_eq_true_2 by congruence.
    + by rewrite bool_decide_eq_false_2 by congruence.
  - intros Hb s -> Hs Hu. unfold py_or. rewrite Hb.
    assert (truthy (Some s) = true) as Ht by (by apply nonempty_true).
    cbn beta iota. rewrite Ht. cbn [andb]. by rewrite bool_decide_eq_false_2 by congruence.
  - done.
  - by intros ->.
  - by intros ->.
Qed.

(** X13. [handle_dial_out] validates before it calls the carrier, in this
    order: a missing, null or empty phone number gives status 400; a
    missing or empty account sid, auth token or carrier number gives status
    500; an unset or empty [LOCAL_SERVER_URL] gives status 500 with the
    message of [get_ws_url]. In these cases no call is requested. Otherwise
    exactly one call is requested, to the phone number and from the carrier
    number, with a media stream tagged [outbound] whose [call_type]
    parameter is the requested call type or [unknown] and whose
    [caller_name] parameter is the requested name or the empty string; a
    carrier failure gives status 500 with the carrier's message. *)
Theorem dial_out_validates_before_calling
    (calls_create : CallRequest → string + string * string)
    (env : DialOutEnv) (data : DialOutData) :
  let r := handle_dial_out calls_create env data in
  let phone := entry_get (d_phoneNumber data) None in
  let configured :=
    truthy (TWILIO_ACCOUNT_SID env) && truthy (TWILIO_AUTH_TOKEN env)
    && truthy (TWILIO_PHONE_NUMBER env) in
  let reachable := truthy (LOCAL_SERVER_URL env) in
  length r.2 ≤ 1
  ∧ (r.2 = [] ↔ truthy phone && configured && reachable = false)
  ∧ (truthy phone = false → r.1 = DialOutError 400 "phoneNumber is required")
  ∧ (truthy phone = true → configured = false →
       r.1 = DialOutError 500 "Twilio credentials not configured")
  ∧ (truthy phone = true → configured = true → reachable = false →
       r.1 = DialOutError 500 "LOCAL_SERVER_URL not configured")
  ∧ (∀ request, r.2 = [request] →
       Some (cr_to request) = phone
       ∧ Some (cr_from request) = TWILIO_PHONE_NUMBER env
       ∧ Some (cr_account_sid request) = TWILIO_ACCOUNT_SID env
       ∧ Some (cr_auth_token request) = TWILIO_AUTH_TOKEN env
       ∧ (∃ ws_url,
            get_ws_url (LOCAL_SERVER_URL env) = inr ws_url
            ∧ cr_twiml request =
                [ ConnectStream ws_url
                    [ ("call_type",
                       if entry_truthy (d_callType data)
                       then default "" (entry_value (d_callType data))
                       else "unknown");
                      ("caller_name",
                       if entry_truthy (d_callerName data)
                       then default "" (entry_value (d_callerName data))
                       else "");
                      ("direction", "outbound");
                      ("from_number", cr_from request);
                      ("to_number", cr_to request) ];
                  Pause 300 ])
       ∧ r.1 = match calls_create request with
               | inl e => DialOutError 500 e
               | inr (sid, status) => DialOutSuccess sid status
               end).
Proof.
  intros r phone configured reachable. subst r. unfold handle_dial_out.
  fold phone. subst configured reachable.
  destruct (truthy phone) eqn:Hp; cbn [negb andb].
  2:{ split; [cbn; auto|]. repeat split; done. }
  destruct (truthy (TWILIO_ACCOUNT_SID env)) eqn:Hsid; cbn [negb andb orb].
  2:{ split; [cbn; auto|]. repeat split; done. }
  destruct (truthy (TWILIO_AUTH_TOKEN env)) eqn:Htok; cbn [negb andb orb].
  2:{ split; [cbn; auto|]. repeat split; done. }
  destruct (truthy (TWILIO_PHONE_NUMBER env)) eqn:Hnum; cbn [negb andb orb].
  2:{ split; [cbn; auto|]. repeat split; done. }
  unfold get_ws_url.
  destruct (LOCAL_SERVER_URL env) as [u|] eqn:Hurl; cbn [default from_option id].
  2:{ split; [cbn; auto|]. repeat split; done. }
  cbn [truthy]. fold (nonempty u).
  destruct (nonempty u) eqn:Hu; cbn [negb].
  2:{ split; [cbn; auto|]. repeat split; done. }
  assert (∃ p, phone = Some p) as [p Hphone] by (destruct phone; by eauto).
  destruct (TWILIO_ACCOUNT_SID env) as [sid|]; [|done].
  destruct (TWILIO_AUTH_TOKEN env) as [tok|]; [|done].
  destruct (TWILIO_PHONE_NUMBER env) as [num|]; [|done].
  rewrite Hphone. cbn [default from_option id].
  set (request := mkCallRequest _ _ _ _ _).
  assert (∀ resp,
            (match calls_create request with
             | inl e => (DialOutError 500 e, [request])
             | inr (s, status) => (DialOutSuccess s status, [request])
             end : DialOutResponse * list CallRequest) = resp →
            resp.2 = [request]
            ∧ resp.1 = match calls_create request with
                       | inl e => DialOutError 500 e
                       | inr (s, status) => DialOutSuccess s status
                       end) as Hresp.
  { intros resp <-. by destruct (calls_create request) as [e|[s status]]. }
  destruct (Hresp _ eq_refl) as [H2 H1]. rewrite H2, H1.
  split; [cbn; auto|]. split; [done|]. do 3 (split; [done|]).
  intros request' [= <-]. do 4 (split; [done|]). split; [|done].
  eexists. split; [done|]. subst request. cbn [cr_twiml cr_from cr_to].
  unfold py_or. repeat f_equal.
  - destruct (d_callType data) as [| |s]; [by vm_compute..|].
    cbn [entry_get entry_truthy entry_value truthy]. unfold nonempty.
    by destruct (bool_decide (s = "")).
  - destruct (d_callerName data) as [| |s]; [by vm_compute..|].
    cbn [entry_get entry_truthy entry_value truthy]. unfold nonempty.
    by destruct (bool_decide (s = "")).
Qed.

Lemma handle_dial_out_request
    (calls_create : CallRequest → string + string * string)
    (env : DialOutEnv) (data : DialOutData) (request : CallRequest) :
  (handle_dial_out calls_create env data).2 = [request] →
  ∃ number to,
    TWILIO_PHONE_NUMBER env = Some number
    ∧ number ≠ ""
    ∧ stream_parameters (cr_twiml request) =
        [ ("call_type",
           if entry_truthy (d_callType data)
           then default "" (entry_value (d_callType data)) else "unknown");
          ("caller_name",
           if entry_truthy (d_callerName data)
           then default "" (entry_value (d_callerName data)) else "");
          ("direction", "outbound");
          ("from_number", number);
          ("to_number", to) ].
Proof.
  unfold handle_dial_out.
  destruct (negb (truthy (entry_get (d_phoneNumber data) None))); [done|].
  destruct (TWILIO_PHONE_NUMBER env) as [number|] eqn:Hnum.
  2:{ cbn [truthy negb]. rewrite !orb_true_r. done. }
  destruct (truthy (Some number)) eqn:Ht.
  2:{ cbn [negb]. rewrite !orb_true_r. done. }
  destruct (_ || _ || _); [done|].
  destruct (get_ws_url (LOCAL_SERVER_URL env)) as [e|ws_url]; [done|].
  set (req := mkCallRequest _ _ _ _ _).
  assert ((match calls_create req with
           | inl e => (DialOutError 500 e, [req])
           | inr (s, status) => (DialOutSuccess s status, [req])
           end : DialOutResponse * list CallRequest).2 = [req]) as ->
    by (by destruct (calls_create req) as [e|[s status]]).
  intros [= <-]. subst req. cbn [cr_twiml stream_parameters].
  exists number. eexists. split; [done|]. split; [by apply nonempty_true|].
  unfold py_or. cbn [default from_option id]. repeat f_equal.
  - destruct (d_callType data) as [| |s]; [by vm_compute..|].
    cbn [entry_get entry_truthy entry_value truthy]. unfold nonempty.
    by destruct (bool_decide (s = "")).
  - destruct (d_callerName data) as [| |s]; [by vm_compute..|].
    cbn [entry_get entry_truthy entry_value truthy]. unfold nonempty.
    by destruct (bool_decide (s = "")).
Qed.

(** X14. A call that [handle_dial_out] places reaches [bot] as requested.
    When the call data of the media stream carries the parameters of the
    voice response that was sent to the carrier, and [bot] is called as
    [websocket_endpoint] calls it, the call state has the direction
    [outbound] and the carrier number as caller number; its call type is
    the requested one, and unset when the request has none, a null, an
    empty one or [unknown]; its caller name is the requested one, and unset
    when the request has none, a null or an empty one. *)
Theorem dialled_call_starts_as_requested
    (calls_create : CallRequest → string + string * string)
    (env : DialOutEnv) (data : DialOutData) (request : CallRequest)
    (call_data : CallData) :
  (handle_dial_out calls_create env data).2 = [request] →
  cd_body call_data
    = Some (list_to_map (stream_parameters (cr_twiml request))) →
  let st := bot_call_state call_data None None "inbound" in
  direction st = "outbound"
  ∧ Some (caller_number st) = TWILIO_PHONE_NUMBER env
  ∧ call_type st =
      match d_callType data with
      | Str s => if decide (s = "" ∨ s = "unknown") then None else Some s
      | _ => None
      end
  ∧ caller_name st =
      match d_callerName data with
      | Str s => if decide (s = "") then None else Some s
      | _ => None
      end.
Proof.
  intros Hreq Hbody st. subst st.
  destruct (handle_dial_out_request _ _ _ _ Hreq) as (number & to & Hn & Hne & Hp).
  unfold bot_call_state. rewrite Hbody, Hp. cbn [default from_option id].
  set (ct := if entry_truthy (d_callType data) then _ else _).
  set (name := if entry_truthy (d_callerName data) then _ else _).
  set (body := list_to_map _).
  assert (body !! "call_type" = Some ct) as ->
    by (subst body; cbn [list_to_map foldr]; by rewrite lookup_insert_eq).
  assert (body !! "caller_name" = Some name) as ->.
  { subst body. cbn [list_to_map foldr]. rewrite lookup_insert_ne by done.
    by rewrite lookup_insert_eq. }
  assert (body !! "direction" = Some "outbound") as ->.
  { subst body. cbn [list_to_map foldr]. rewrite !lookup_insert_ne by done.
    by rewrite lookup_insert_eq. }
  assert (body !! "from_number" = Some number) as ->.
  { subst body. cbn [list_to_map foldr]. rewrite !lookup_insert_ne by done.
    by rewrite lookup_insert_eq. }
  cbn [direction caller_number call_type caller_name CallState_init
       default from_option id].
  split; [done|]. split; [done|]. unfold py_or. cbn [truthy]. split.
  - subst ct. destruct (d_callType data) as [| |s]; [done..|].
    destruct (decide (s = "")) as [->|Hs]; [done|].
    assert (entry_truthy (Str s) = true) as ->
      by (by apply (nonempty_true s)).
    cbn [entry_value default from_option id].
    assert (truthy (Some s) = true) as Ht by (by apply nonempty_true).
    rewrite (bool_decide_eq_false_2 (s = "")) by done. cbn [negb].
    rewrite Ht. cbn [andb].
    destruct (decide (s = "unknown")) as [->|Hu]; [done|].
    rewrite bool_decide_eq_false_2 by congruence. cbn [negb].
    by destruct (decide (s = "" ∨ s = "unknown")) as [[?|?]|?].
  - subst name. destruct (d_callerName data) as [| |s]; [done..|].
    destruct (decide (s = "")) as [->|Hs]; [done|].
    assert (entry_truthy (Str s) = true) as ->
      by (by apply (nonempty_true s)).
    cbn [entry_value default from_option id].
    by rewrite (bool_decide_eq_false_2 (s = "")) by done.
Qed.

(** X15. An inbound call reaches [bot] unclassified. Without a configured
    [LOCAL_SERVER_URL] the webhook answers with an apology and hangs up: the
    response opens no media stream. Otherwise, when the call data of the
    media stream carries the parameters of the webhook's response and [bot]
    is called as [websocket_endpoint] calls it, the call state has the
    direction [inbound], the caller number of the webhook form ([unknown]
    when the form has none), no call type and no caller name. *)
Theorem inbound_call_starts_unclassified
    (url : option string) (form_data : gmap string string)
    (call_data : CallData) :
  let doc := twiml_incoming url form_data in
  let st := bot_call_state call_data None None "inbound" in
  (truthy url = false →
     stream_parameters doc = [] ∧ (∀ u ps, ConnectStream u ps ∉ doc)
     ∧ Hangup ∈ doc)
  ∧ (truthy url = true →
     cd_body call_data = Some (list_to_map (stream_parameters doc)) →
     direction st = "inbound"
     ∧ caller_number st = default "unknown" (form_data !! "From")
     ∧ call_type st = None
     ∧ caller_name st = None).
Proof.
  intros doc st. subst doc st. unfold twiml_incoming, get_ws_url.
  cbv zeta. split.
  - intros Hu.
    assert (nonempty (default "" url) = false) as ->
      by (by destruct url as [u|]).
    cbn [negb stream_parameters]. split; [done|]. split.
    + intros u ps Hin. by repeat (apply elem_of_cons in Hin as [?|Hin];
        [done|]); apply elem_of_nil in Hin.
    + apply elem_of_cons. right. apply elem_of_cons. by left.
  - intros Hu Hbody.
    assert (nonempty (default "" url) = true) as Hn
      by (by destruct url as [u|]).
    rewrite Hn in Hbody. cbn [negb stream_parameters] in Hbody.
    unfold bot_call_state. rewrite Hbody. cbn [default from_option id].
    set (body := list_to_map _).
    assert (body !! "call_type" = None) as ->.
    { subst body. cbn [list_to_map foldr]. by rewrite !lookup_insert_ne by done. }
    assert (body !! "caller_name" = None) as ->.
    { subst body. cbn [list_to_map foldr]. by rewrite !lookup_insert_ne by done. }
    assert (body !! "direction" = Some "inbound") as ->
      by (subst body; cbn [list_to_map foldr]; by rewrite lookup_insert_eq).
    assert (body !! "from_number" = Some (default "unknown" (form_data !! "From"))) as ->.
    { subst body. cbn [list_to_map foldr]. rewrite lookup_insert_ne by done.
      by rewrite lookup_insert_eq. }
    done.
Qed.
End External.

(** ** The model at work: concrete runs *)

(** C5 at a concrete input: classifying the sample call as [quote] seeds the
    seven quote keys with the empty string. *)
Lemma classify_call_preseeds_intake_data_quote :
  "quote" ≠ "emergency"
  ∧ CALL_TYPE_FIELDS !! "quote" = Some QUOTE_FIELDS
  ∧ intake_data
      (handle_classify_call Sample.call Sample.messages (Some "quote")).1.1
      !! "projectScope" = Some ""
  ∧ intake_data
      (handle_classify_call Sample.call Sample.messages (Some "quote")).1.1
      !! "specialRequirements" = None.
Proof.
  assert ("quote" ≠ "emergency") as Hne by done.
  assert (CALL_TYPE_FIELDS !! "quote" = Some QUOTE_FIELDS) as Hq by reflexivity.
  destruct (classify_call_preseeds_intake_data Sample.call Sample.messages
              "quote" QUOTE_FIELDS Hne Hq) as (_ & Hseed & _ & Hother & _).
  split; [exact Hne|]. split; [exact Hq|]. split.
  - apply Hseed; [|reflexivity]. by apply (bool_decide_unpack _); vm_compute.
  - rewrite Hother; [reflexivity|]. by apply (bool_decide_unpack _); vm_compute.
Defined.

(** C1 as stated fails on the sample design call: the five required fields
    all have a value, yet the status string does not signal that all fields
    are collected; it lists the three optional fields as still needed. *)
Lemma update_intake_status_lists_optional_fields :
  let r := handle_update_intake Sample.design_call
             (Some {["timeline" := "next spring"]}) in
  let required_fields :=
    filter (λ f, required f = true) (fields_of (call_type r.1)) in
  length required_fields = 5
  ∧ forallb (has_value (intake_data r.1)) required_fields = true
  ∧ r.2 = "Updated 1 field(s). 5/5 required fields collected. Still needed: Budget Range, Existing System, Special Requirements."
  ∧ contains_str "All fields collected" r.2 = false.
Proof. vm_compute. done. Qed.

(** C2 as stated fails on the sample call: the caller name [Alice] is
    stored before the extraction runs, the extraction succeeds with the
    caller name [Bob], and [Bob] replaces [Alice]. *)
Lemma extraction_replaces_stored_caller_name :
  let w' := (run (extract_from_context Sample.json_loads
                    Sample.chat_completions_create Sample.messages)
               Sample.call).2 in
  let st1 := build_turns Sample.messages Sample.call in
  caller_name Sample.call = Some "Alice"
  ∧ parsed_answer Sample.json_loads Sample.chat_completions_create
      (transcript_of (turns st1)) (call_type_or_unknown (call_type st1))
    = Some (PyDict Sample.extracted)
  ∧ caller_name (w_state w') = Some "Bob".
Proof. vm_compute. done. Qed.

(** The amended C2 at the sample call: the extracted name replaces the
    stored one, and the email, which the extraction does not give, stays
    unset. *)
Lemma extraction_overwrites_contact_sample :
  let st1 := build_turns Sample.messages Sample.call in
  let st' := w_state (run (extract_from_context Sample.json_loads
                             Sample.chat_completions_create Sample.messages)
                        Sample.call).2 in
  intake_blank (intake_data Sample.call) = true
  ∧ turns st1 ≠ []
  ∧ dict_truthy Sample.extracted = true
  ∧ caller_name st' = Some "Bob"
  ∧ caller_email st' = None.
Proof.
  assert (intake_blank (intake_data Sample.call) = true) as H1 by reflexivity.
  assert (turns (build_turns Sample.messages Sample.call) ≠ []) as H2
    by (vm_compute; discriminate).
  assert (parsed_answer Sample.json_loads Sample.chat_completions_create
            (transcript_of (turns (build_turns Sample.messages Sample.call)))
            (call_type_or_unknown (call_type Sample.call))
          = Some (PyDict Sample.extracted)) as H3 by (vm_compute; reflexivity).
  assert (dict_truthy Sample.extracted = true) as H4 by reflexivity.
  destruct (extraction_overwrites_contact_with_nonempty_values
              Sample.json_loads Sample.chat_completions_create
              Sample.messages Sample.call Sample.extracted H1 H2 H3 H4)
    as (Hn & Hm & _).
  split; [exact H1|]. split; [exact H2|]. split; [exact H4|].
  split; [exact Hn|exact Hm].
Defined.

(** The scenario of the specification: on a design call, submitting
    [buildingType = office] and an empty [location] stores the first and
    leaves the second as it was. *)
Example update_intake_fields_scenario :
  let st := (handle_classify_call Sample.call Sample.messages (Some "design")).1.1 in
  let st' := (handle_update_intake st
                (Some (<["buildingType" := "office"]> {["location" := ""]}))).1 in
  intake_data st' !! "buildingType" = Some "office"
  ∧ intake_data st' !! "location" = intake_data st !! "location"
  ∧ intake_data st !! "location" = Some "".
Proof. vm_compute. done. Qed.

(** When the provider cannot be reached, reconciliation rebuilds the turns
    and leaves the rest of the call state as it was; the call still reaches
    the persistence step, which makes its one delivery attempt. *)
Example reconciliation_without_provider :
  let r := run (extract_from_context Sample.json_loads Sample.chat_unavailable
                  Sample.messages;;
                save_call_data Sample.json_dumps Sample.session_post
                  Sample.NEXTJS_API_URL)
             Sample.call in
  r.1 = inr ()
  ∧ turnNumber <$> turns (w_state r.2) = [1; 2]
  ∧ role <$> turns (w_state r.2) = ["agent"; "caller"]
  ∧ intake_data (w_state r.2) = ∅
  ∧ caller_name (w_state r.2) = Some "Alice"
  ∧ summary (w_state r.2) = None
  ∧ _saved (w_state r.2) = true
  ∧ delivery_attempts (w_trace r.2) = 1.
Proof. vm_compute. done. Qed.

(** The counter of [add_turn] after a backfill: the backfill built two
    turns and left the counter at zero, so the next live turn is numbered
    one. *)
Example add_turn_after_backfill :
  let w := (run (extract_from_context Sample.json_loads Sample.chat_unavailable
                   Sample.messages) Sample.call).2 in
  turnNumber <$> turns (add_turn Sample.json_dumps "caller" "Hello?" None (w_state w))
  = [1; 2; 1].
Proof. vm_compute. done. Qed.

(** Whitespace outside ASCII: an answer whose code fences stand between a
    no-break space and an em space is parsed like the bare payload. *)
Example extraction_parses_answer_in_unicode_whitespace :
  strip (Sample.nbsp +:+ " x " +:+ Sample.em_space) = "x"
  ∧ strip_code_fences
      (Sample.nbsp +:+ "```json" +:+ nl +:+ Sample.json_text +:+ nl +:+ "```"
       +:+ Sample.em_space)
    = Sample.json_text
  ∧ (run (post_call_extraction Sample.json_loads Sample.chat_answers_padded
            "Caller: Hello" "design") Sample.call).1
    = inr (PyDict Sample.extracted).
Proof. vm_compute. done. Qed.

(** Code fences that stand alone: an opening fence without a line break
    loses its three characters only, a closing fence is removed without an
    opening one, and a fence with nothing else leaves the empty text. *)
Example strip_code_fences_lone_fences :
  strip_code_fences ("```" +:+ Sample.json_text) = Sample.json_text
  ∧ strip_code_fences ("```json " +:+ Sample.json_text)
    = "json " +:+ Sample.json_text
  ∧ strip_code_fences (Sample.json_text +:+ "```") = Sample.json_text
  ∧ strip_code_fences ("```" +:+ Sample.json_text +:+ "```") = Sample.json_text
  ∧ strip_code_fences "```" = "".
Proof. vm_compute. done. Qed.

(** The summary is not kept like the intake values. On an emergency call
    no intake key is seeded, so the intake data is blank when the call
    ends; the extraction runs, and the null summary of its answer clears
    the summary that [complete_intake] stored. *)
Example reconciliation_clears_summary_on_blank_intake :
  let r := run (extract_from_context Sample.json_loads_null_summary
                  Sample.chat_answers_null_summary Sample.messages)
             Sample.emergency_call in
  summary Sample.emergency_call = Some "Gas leak, caller evacuated."
  ∧ intake_data Sample.emergency_call = ∅
  ∧ r.1 = inr ()
  ∧ summary (w_state r.2) = None
  ∧ is_complete (w_state r.2) = true.
Proof. vm_compute. done. Qed.

(** X7 at the sample design call: its five collected fields survive a
    reconciliation whose provider would have answered with other values. *)
Lemma reconciliation_keeps_captured_intake_design :
  intake_blank (intake_data Sample.design_call) = false
  ∧ intake_data
      (w_state (run (extract_from_context Sample.json_loads
                       Sample.chat_completions_create Sample.messages)
                  Sample.design_call).2)
    = intake_data Sample.design_call.
Proof.
  assert (intake_blank (intake_data Sample.design_call) = false) as Hb
    by (vm_compute; reflexivity).
  split; [exact Hb|].
  exact (proj2 (reconciliation_keeps_captured_intake Sample.json_loads
                  Sample.chat_completions_create Sample.messages
                  Sample.design_call Hb)).
Defined.

(** X8 at the sample call, with a provider that answers with a JSON list:
    the turns are rebuilt, one request is made, and the caller name stays. *)
Lemma non_dictionary_answer_ends_reconciliation_list :
  let st1 := build_turns Sample.messages Sample.call in
  let transcript := transcript_of (turns st1) in
  intake_blank (intake_data Sample.call) = true
  ∧ turns st1 ≠ []
  ∧ parsed_answer Sample.json_loads_list Sample.chat_answers_list
      transcript "unknown" = Some (PyOther true)
  ∧ run (extract_from_context Sample.json_loads_list Sample.chat_answers_list
           Sample.messages) Sample.call
    = (inr (), mkWorld st1 [extraction_request transcript "unknown"]).
Proof.
  intros st1 transcript.
  assert (intake_blank (intake_data Sample.call) = true) as H1 by reflexivity.
  assert (turns st1 ≠ []) as H2 by (vm_compute; discriminate).
  assert (parsed_answer Sample.json_loads_list Sample.chat_answers_list
            transcript (call_type_or_unknown (call_type Sample.call))
          = Some (PyOther true)) as H3 by (vm_compute; reflexivity).
  split; [exact H1|]. split; [exact H2|]. split; [exact H3|].
  exact (non_dictionary_answer_ends_reconciliation Sample.json_loads_list
           Sample.chat_answers_list Sample.messages Sample.call H1 H2 H3).
Defined.

(** X9 at the sample call: the disconnect handler and the end of the
    pipeline both reconcile and save, and one payload is posted. *)
Lemma second_reconciliation_is_not_delivered_sample :
  let first :=
    w_state (run (extract_from_context Sample.json_loads
                    Sample.chat_completions_create Sample.messages)
               Sample.call).2 in
  let teardown :=
    reconcile_and_save Sample.json_dumps Sample.json_loads
      Sample.chat_completions_create Sample.session_post
      Sample.NEXTJS_API_URL Sample.messages in
  _saved Sample.call = false
  ∧ turns (build_turns Sample.messages Sample.call) ≠ []
  ∧ posted (w_trace (run (teardown;; teardown) Sample.call).2)
    = [to_payload Sample.json_dumps (set_saved true first)]
  ∧ _saved (w_state (run (teardown;; teardown) Sample.call).2) = true.
Proof.
  intros first teardown.
  assert (_saved Sample.call = false) as H1 by reflexivity.
  assert (turns (build_turns Sample.messages Sample.call) ≠ []) as H2
    by (vm_compute; discriminate).
  split; [exact H1|]. split; [exact H2|].
  exact (second_reconciliation_is_not_delivered Sample.json_dumps
           Sample.json_loads Sample.chat_completions_create
           Sample.session_post Sample.NEXTJS_API_URL Sample.messages
           Sample.messages Sample.call H1 H2).
Defined.

(** X10 at the design schema: the prompt of a design call has the line of
    the optional budget field. *)
Lemma system_prompt_lists_every_schema_field_budget :
  CALL_TYPE_FIELDS !! "design" = Some DESIGN_FIELDS
  ∧ contains_str "- budget: Budget Range"
      (build_system_prompt "inbound" (Some "design") None) = true
  ∧ contains_str "You are conducting a design intake call."
      (build_system_prompt "inbound" (Some "design") None) = true.
Proof.
  assert (CALL_TYPE_FIELDS !! "design" = Some DESIGN_FIELDS) as H1
    by reflexivity.
  assert (mkField "budget" "Budget Range" false ∈ DESIGN_FIELDS) as H2
    by (unfold DESIGN_FIELDS;
        do 5 (apply elem_of_cons; right); apply elem_of_cons; by left).
  split; [exact H1|].
  exact (system_prompt_lists_every_schema_field "inbound" "design" None
           DESIGN_FIELDS (mkField "budget" "Budget Range" false) H1 H2).
Defined.

(** X14 at the sample request: a dial-out for a design call without a
    caller name starts an outbound design call with no caller name. *)
Lemma dialled_call_starts_as_requested_design :
  let st := bot_call_state Sample.dial_call_data None None "inbound" in
  (handle_dial_out Sample.calls_create Sample.dial_env Sample.dial_data).2
    = [Sample.dial_request]
  ∧ direction st = "outbound"
  ∧ Some (caller_number st) = Some "+16045550199"
  ∧ call_type st = Some "design"
  ∧ caller_name st = None.
Proof.
  intros st.
  assert ((handle_dial_out Sample.calls_create Sample.dial_env
             Sample.dial_data).2 = [Sample.dial_request]) as H1
    by (vm_compute; reflexivity).
  assert (cd_body Sample.dial_call_data
          = Some (list_to_map
                    (stream_parameters (cr_twiml Sample.dial_request)))) as H2
    by reflexivity.
  split; [exact H1|].
  exact (dialled_call_starts_as_requested Sample.calls_create Sample.dial_env
           Sample.dial_data Sample.dial_request Sample.dial_call_data H1 H2).
Defined.
